(** * EasyAria: a typed accessor layer over the [aria-*] attributes of an element

    A shallow embedding of [src/EasyAria.ts] (methods [set], [unset], [get]
    and the private helpers [#generateId], [#getId], [#setAttr]) together
    with the part of the JavaScript runtime these methods rely on, followed
    by the properties of the codec.

    Layout:
    - [JS]      : the fragment of the language runtime used by the class
                  (values, [Number], [String], [toLowerCase], [join]);
    - [Dom]     : the host contract (elements with an attribute store,
                  which the [id] property reflects);
    - [EasyAria]: the class itself;
    - the theorems. *)

From Stdlib Require Import ZArith NArith Ascii String List Lia.
From Stdlib Require Import DecimalString DecimalPos DecimalN DecimalZ.
From stdpp Require Import base option list strings gmap.

Set Warnings "-register-all".
Local Open Scope Z_scope.

(* ===================================================================== *)
(** * The JavaScript fragment *)
(* ===================================================================== *)

Module JS.

(** ** Numbers *)

(** Number values: not-a-number, the two infinities and the finite doubles.
    [Double m k] is the number [m / 2^k]: an integer when [k] is zero, and
    otherwise a fraction in lowest terms ([m] odd).  The two zeros are
    identified (as [===] does). *)
Inductive number : Type :=
| NaN
| Infinity (negative : bool)
| Double (m : Z) (k : N).

(** The integers among them. *)
Abbreviation Finite z := (Double z 0).

(** The values of the type that are numbers of the language: the
    significand fits 53 bits, the exponent of the last bit is -1074 at
    least and the magnitude is below [2^1024]; a fraction is in lowest
    terms. *)
Definition is_double (n : number) : bool :=
  match n with
  | NaN | Infinity _ => true
  | Double m k =>
      let a := Z.abs m in
      (a mod 2 ^ Z.max 0 (Z.log2 a - 52) =? 0) &&
      (if (k =? 0)%N then a <? 2 ^ 1024
       else Z.odd m && (Z.of_N k <=? 1074))
  end.

(** [Number.isNaN]. *)
Definition isNaN (n : number) : bool :=
  match n with NaN => true | _ => false end.

Definition negate (n : number) : number :=
  match n with
  | NaN => NaN
  | Infinity b => Infinity (negb b)
  | Double m k => Double (- m) k
  end.

(** The same number value ([NaN] included). *)
Definition same_number (a b : number) : bool :=
  match a, b with
  | NaN, NaN => true
  | Infinity x, Infinity y => Bool.eqb x y
  | Double m k, Double m' k' => (m =? m') && (k =? k')%N
  | _, _ => false
  end.

Definition signed (negative : bool) (z : Z) : Z := if negative then - z else z.

(** [p / 2^k] in lowest terms. *)
Fixpoint reduce (negative : bool) (p : positive) (k : positive) : number :=
  match p, k with
  | xO p', xH => Double (signed negative (Zpos p')) 0
  | xO p', _ => reduce negative p' (Pos.pred k)
  | _, _ => Double (signed negative (Zpos p)) (Npos k)
  end.

(** The number [M * 2^e], for a natural number [M]. *)
Definition of_scaled (negative : bool) (M e : Z) : number :=
  match M with
  | Zpos p => if 0 <=? e then Double (signed negative (M * 2 ^ e)) 0
              else reduce negative p (Z.to_pos (- e))
  | _ => Double 0 0
  end.

(** The double nearest to the ratio [a / d] of two naturals, ties to the
    even significand, with the sign given: the rounding every conversion
    to a Number value ends with.  The ratio is taken in units of
    [2^-1074], the last bit of the smallest doubles; [q] counts the bits
    that do not fit the 53 of the significand, [M0] is the significand
    rounded down and [r] what it leaves.  A result of [2^1024] or more is
    an infinity. *)
Definition round_ratio (negative : bool) (a d : Z) : number :=
  let num := a * 2 ^ 1074 in
  let q := Z.max 0 (Z.log2 (num / d) - 52) in
  let den := d * 2 ^ q in
  let M0 := num / den in
  let r := num mod den in
  let M := match 2 * r ?= den with
           | Lt => M0
           | Gt => M0 + 1
           | Eq => if Z.even M0 then M0 else M0 + 1
           end in
  if 2 ^ 2098 <=? M * 2 ^ q then Infinity negative
  else of_scaled negative M (q - 1074).

(** The double nearest to [D * 10^E]. *)
Definition decimal_to_double (negative : bool) (D E : Z) : number :=
  if 0 <=? E then round_ratio negative (D * 10 ^ E) 1
  else round_ratio negative D (10 ^ (- E)).

(** Element handles: references to nodes of the host tree. *)
Definition handle : Type := nat.

(** Language values, as far as the class can tell them apart with
    [typeof], [instanceof], [Array.isArray] and [===]. *)
Inductive value : Type :=
| VUndefined                        (* also: argument omitted *)
| VNull
| VBoolean (b : bool)
| VNumber (n : number)
| VBigInt (z : Z)
| VString (s : string)
| VElement (h : handle)             (* instanceof Element *)
| VArray (items : list value)       (* Array.isArray *)
| VNodeList (items : list value)    (* instanceof NodeList *)
| VObject.                          (* any other object, function, symbol *)

(** ** Strings *)

(** Strings are the program's strings in UTF-8: an ASCII character is one
    byte, any other character a sequence of bytes from 128 up. *)

(** The lowercase form of an ASCII character. *)
Definition lower_ascii (c : ascii) : ascii :=
  let n := N_of_ascii c in
  if ((65 <=? n) && (n <=? 90))%N then ascii_of_N (n + 32) else c.

(** [String.prototype.toLowerCase], as far as the class depends on it: the
    ASCII capitals become small letters and so does U+212A KELVIN SIGN
    (bytes 226 132 170), the one character outside ASCII whose lowercase
    form is made of ASCII characters only.  The other characters outside
    ASCII are left as they are: their lowercase forms keep a character
    outside ASCII (that of U+0130 is [i] and U+0307), so a name with one
    of them lowercases to no ASCII word, in the program as here. *)
Fixpoint toLowerCase (s : string) : string :=
  match s with
  | EmptyString => EmptyString
  | String c s' =>
      match c, s' with
      | "226"%char, String "132"%char (String "170"%char s'') =>
          String "k"%char (toLowerCase s'')
      | _, _ => String (lower_ascii c) (toLowerCase s')
      end
  end.

(** A string from the bytes of its UTF-8 form. *)
Definition utf8 (bytes : list N) : string :=
  fold_right (fun b s => String (ascii_of_N b) s) "" bytes.

(** [StrWhiteSpaceChar]: the white space and the line terminators of the
    language.  TAB, LF, VT, FF, CR, SP; U+00A0; U+1680; U+2000 to U+200A;
    U+2028, U+2029; U+202F; U+205F; U+3000; U+FEFF. *)
Definition StrWhiteSpaceChar : list string :=
  map utf8
    [ [9]; [10]; [11]; [12]; [13]; [32];
      [194; 160];
      [225; 154; 128];
      [226; 128; 128]; [226; 128; 129]; [226; 128; 130]; [226; 128; 131];
      [226; 128; 132]; [226; 128; 133]; [226; 128; 134]; [226; 128; 135];
      [226; 128; 136]; [226; 128; 137]; [226; 128; 138];
      [226; 128; 168]; [226; 128; 169];
      [226; 128; 175];
      [226; 129; 159];
      [227; 128; 128];
      [239; 187; 191] ]%N.

(** The string without the prefix [p], if it starts with it. *)
Fixpoint strip_prefix (p s : string) : option string :=
  match p, s with
  | EmptyString, _ => Some s
  | String a p', String b s' =>
      if Ascii.eqb a b then strip_prefix p' s' else None
  | String _ _, EmptyString => None
  end.

Fixpoint strip_any (chars : list string) (s : string) : option string :=
  match chars with
  | [] => None
  | c :: rest =>
      match strip_prefix c s with
      | Some s' => Some s'
      | None => strip_any rest s
      end
  end.

(** The string without its first character, if that is white space. *)
Definition strip_white_space (s : string) : option string :=
  strip_any StrWhiteSpaceChar s.

Fixpoint trim_start_upto (fuel : nat) (s : string) : string :=
  match fuel with
  | O => s
  | S fuel' =>
      match strip_white_space s with
      | Some s' => trim_start_upto fuel' s'
      | None => s
      end
  end.

(** The string without the white space it starts with (there are no more
    such characters than bytes). *)
Definition trim_start (s : string) : string :=
  trim_start_upto (String.length s) s.

(** The string without the white space it ends with: what is left is
    dropped as soon as it is white space only. *)
Fixpoint trim_end (s : string) : string :=
  match s with
  | EmptyString => EmptyString
  | String c s' =>
      match trim_start s with
      | EmptyString => EmptyString
      | _ => String c (trim_end s')
      end
  end.

Definition trim (s : string) : string := trim_end (trim_start s).

(** ** Strings to numbers *)

Definition is_digit (c : ascii) : bool :=
  let n := N_of_ascii c in ((48 <=? n) && (n <=? 57))%N.

Definition digit_value (c : ascii) : Z := Z.of_N (N_of_ascii c) - 48.

Fixpoint digits_value_from (acc : Z) (s : string) : Z :=
  match s with
  | EmptyString => acc
  | String c s' => digits_value_from (acc * 10 + digit_value c) s'
  end.

(** The value of [DecimalDigits]. *)
Definition digits_value (s : string) : Z := digits_value_from 0 s.

(** The decimal digits a string starts with, and the rest of it. *)
Fixpoint span_digits (s : string) : string * string :=
  match s with
  | EmptyString => (EmptyString, EmptyString)
  | String c s' =>
      if is_digit c
      then let (digits, rest) := span_digits s' in (String c digits, rest)
      else (EmptyString, s)
  end.

(** [ExponentPart], if any, to the end of the literal: [e] or [E], a sign
    or none, one digit at least.  The result is the exponent. *)
Definition ExponentPart (s : string) : option Z :=
  match s with
  | EmptyString => Some 0
  | String c r =>
      if Ascii.eqb c "e" || Ascii.eqb c "E" then
        let (negative, r') :=
          match r with
          | String c' r' =>
              if Ascii.eqb c' "+" then (false, r')
              else if Ascii.eqb c' "-" then (true, r')
              else (false, r)
          | EmptyString => (false, r)
          end in
        match span_digits r' with
        | (String _ _ as digits, EmptyString) =>
            Some (signed negative (digits_value digits))
        | _ => None
        end
      else None
  end.

(** [StrUnsignedDecimalLiteral]: [Infinity], or digits with a point
    somewhere or none (one digit at least) and an exponent part or none.
    Its value is the digits, as one integer, times ten to the exponent
    less the number of digits after the point; the result is the double
    nearest to it (as the engines compute it; the language also lets a
    literal of more than 20 significant digits be cut at the 20th). *)
Definition StrUnsignedDecimalLiteral (s : string) : number :=
  if String.eqb s "Infinity" then Infinity false
  else
    let (ip, r1) := span_digits s in
    let (fp, r2) := match r1 with
                    | String c r => if Ascii.eqb c "." then span_digits r
                                    else (EmptyString, r1)
                    | EmptyString => (EmptyString, r1)
                    end in
    match ip +:+ fp, ExponentPart r2 with
    | String _ _ as digits, Some e =>
        decimal_to_double false (digits_value digits)
          (e - Z.of_nat (String.length fp))
    | _, _ => NaN
    end.

(** The radix a prefix [0x], [0o] or [0b] announces (in either case). *)
Definition radix_of (c : ascii) : option Z :=
  if Ascii.eqb c "x" || Ascii.eqb c "X" then Some 16
  else if Ascii.eqb c "o" || Ascii.eqb c "O" then Some 8
  else if Ascii.eqb c "b" || Ascii.eqb c "B" then Some 2
  else None.

Definition radix_digit (c : ascii) : option Z :=
  let n := N_of_ascii c in
  if ((48 <=? n) && (n <=? 57))%N then Some (Z.of_N n - 48)
  else if ((97 <=? n) && (n <=? 102))%N then Some (Z.of_N n - 87)
  else if ((65 <=? n) && (n <=? 70))%N then Some (Z.of_N n - 55)
  else None.

Fixpoint radix_value_from (radix acc : Z) (s : string) : option Z :=
  match s with
  | EmptyString => Some acc
  | String c s' =>
      match radix_digit c with
      | Some d => if d <? radix then radix_value_from radix (acc * radix + d) s'
                  else None
      | None => None
      end
  end.

(** [NonDecimalIntegerLiteral]: a radix prefix and one digit of that radix
    at least; no sign. *)
Definition NonDecimalIntegerLiteral (s : string) : option number :=
  match s with
  | String z (String c (String _ _ as digits)) =>
      if Ascii.eqb z "0" then
        match radix_of c with
        | Some radix =>
            match radix_value_from radix 0 digits with
            | Some v => Some (round_ratio false v 1)
            | None => None
            end
        | None => None
        end
      else None
  | _ => None
  end.

(** [StringToNumber]: surrounding white space is skipped; the empty string
    is zero; a literal with a radix prefix, or a decimal literal with a
    sign or none, is the double nearest to its value; any other string is
    [NaN]. *)
Definition StringToNumber (s : string) : number :=
  match trim s with
  | EmptyString => Finite 0
  | String c r as t =>
      match NonDecimalIntegerLiteral t with
      | Some n => n
      | None =>
          if Ascii.eqb c "+" then StrUnsignedDecimalLiteral r
          else if Ascii.eqb c "-" then negate (StrUnsignedDecimalLiteral r)
          else StrUnsignedDecimalLiteral t
      end
  end.

(** [Number(value)] for the primitive values.  The class applies it to
    numbers, bigints and strings (in [set]) and to the result of
    [getAttribute], a string or [null] (in [get]); objects would go
    through [ToPrimitive], which is not modelled.  A bigint becomes the
    double nearest to it. *)
Definition Number_ (v : value) : number :=
  match v with
  | VUndefined => NaN
  | VNull => Finite 0
  | VBoolean b => Finite (if b then 1 else 0)
  | VNumber n => n
  | VBigInt z => round_ratio (z <? 0) (Z.abs z) 1
  | VString s => StringToNumber s
  | _ => NaN
  end.

(** ** Numbers to strings *)

(** The decimal digits of an integer (with a minus sign below zero). *)
Definition IntegerToString (z : Z) : string :=
  NilEmpty.string_of_int (Z.to_int z).

(** The number of decimal digits of a natural number. *)
Definition digits_count (s : Z) : Z :=
  Z.of_nat (String.length (IntegerToString s)).

(** The [n] with [10^(n-1) <= a / d < 10^n]. *)
Definition decimal_exponent (a d : Z) : Z :=
  if d <=? a then digits_count (a / d)
  else 1 - digits_count ((d - 1) / a).

(** The decimal [s * 10^(n-k)], [k] the number of digits of [s], is one
    that denotes [x]: the double nearest to it is [x]. *)
Definition accepts (x : number) (c : Z * Z) : bool :=
  let (s, n) := c in
  same_number (decimal_to_double false s (n - digits_count s)) x.

(** The decimal of [k] digits that denotes [x = a / d], if there is one:
    of the two decimals of [k] digits next to [x], below ([low]) and above
    ([high], a power of ten taking one more place), the one that denotes
    [x]; the one closer to [x] if both do, the even one if they are
    equally close. *)
Definition candidate (x : number) (a d n k : Z) : option (Z * Z) :=
  let (num, den) := if n <=? k then (a * 10 ^ (k - n), d)
                    else (a, d * 10 ^ (n - k)) in
  let lo := num / den in
  let r := num mod den in
  let low := (lo, n) in
  let high := if lo + 1 =? 10 ^ k then (10 ^ (k - 1), n + 1) else (lo + 1, n) in
  match accepts x low, accepts x high with
  | true, true =>
      Some match 2 * r ?= den with
           | Lt => low
           | Gt => high
           | Eq => if Z.even lo then low else high
           end
  | true, false => Some low
  | false, true => Some high
  | false, false => None
  end.

(** The digits [s] and the exponent [n] of [Number::toString] for the
    positive double [x = a / 2^j]: the decimal with the fewest digits [k]
    that denotes [x], looking from [k] on.  If [fuel] lengths are tried in
    vain the decimal expansion of [x] itself is taken, [a * 5^j / 10^j]. *)
Fixpoint shortest (fuel : nat) (x : number) (a j k : Z) : Z * Z :=
  match fuel with
  | O => let s := a * 5 ^ j in (s, digits_count s - j)
  | S fuel' =>
      match candidate x a (2 ^ j) (decimal_exponent a (2 ^ j)) k with
      | Some c => c
      | None => shortest fuel' x a j (k + 1)
      end
  end.

Fixpoint zeros (n : nat) : string :=
  match n with O => "" | S n' => String "0" (zeros n') end.

Fixpoint string_take (n : nat) (s : string) : string :=
  match n, s with
  | S n', String c s' => String c (string_take n' s')
  | _, _ => ""
  end.

Fixpoint string_drop (n : nat) (s : string) : string :=
  match n, s with
  | S n', String c s' => string_drop n' s'
  | _, _ => s
  end.

(** The digits laid out as [Number::toString] does for the exponent [n]:
    with zeros after them, with a point inside them or with zeros before
    them when [-5 <= n <= 21], and in exponent notation otherwise. *)
Definition layout (digits : string) (n : Z) : string :=
  let k := Z.of_nat (String.length digits) in
  if (-5 <=? n) && (n <=? 21) then
    if k <=? n then digits +:+ zeros (Z.to_nat (n - k))
    else if 0 <? n
    then string_take (Z.to_nat n) digits +:+ "." +:+
         string_drop (Z.to_nat n) digits
    else "0." +:+ zeros (Z.to_nat (- n)) +:+ digits
  else
    let e := n - 1 in
    let exponent :=
      (if e <? 0 then "e-" else "e+") +:+ IntegerToString (Z.abs e) in
    match digits with
    | String d "" => String d exponent
    | String d rest => String d ("." +:+ rest +:+ exponent)
    | "" => ""
    end.

(** [String(num)], [Number::toString]: the shortest decimal that denotes
    the number (17 digits are enough for a double). *)
Definition NumberToString (n : number) : string :=
  match n with
  | NaN => "NaN"
  | Infinity false => "Infinity"
  | Infinity true => "-Infinity"
  | Double 0 _ => "0"
  | Double m k =>
      let (s, n) := shortest 17 (Double (Z.abs m) k) (Z.abs m) (Z.of_N k) 1 in
      (if m <? 0 then "-" else "") +:+ layout (IntegerToString s) n
  end.

(** [String(b)] for a boolean. *)
Definition BooleanToString (b : bool) : string :=
  if b then "true" else "false".

(** [Array.prototype.join] on strings. *)
Fixpoint join (sep : string) (l : list string) : string :=
  match l with
  | [] => ""
  | [x] => x
  | x :: rest => x +:+ sep +:+ join sep rest
  end.

(** [Boolean(s)] on a string, the predicate of [filter(Boolean)]. *)
Definition truthy (s : string) : bool :=
  match s with EmptyString => false | _ => true end.

(** [ToBoolean], the test of [if (value)]. *)
Definition ToBoolean (v : value) : bool :=
  match v with
  | VUndefined | VNull => false
  | VBoolean b => b
  | VNumber NaN => false
  | VNumber (Double m _) => negb (m =? 0)
  | VNumber (Infinity _) => true
  | VBigInt z => negb (z =? 0)
  | VString s => truthy s
  | VElement _ | VArray _ | VNodeList _ | VObject => true
  end.

(** [===] on numbers: [NaN] equals nothing. *)
Definition number_equals (a b : number) : bool :=
  match a, b with
  | Infinity x, Infinity y => Bool.eqb x y
  | Double m k, Double m' k' => (m =? m') && (k =? k')%N
  | _, _ => false
  end.

(** [a === b] where [a] is a primitive, as the results of [get] are: equal
    types and equal values.  Elements are compared by handle; the other
    objects carry no identity in the model and the class never has one on
    the left of [===]. *)
Definition strict_equals (a b : value) : bool :=
  match a, b with
  | VUndefined, VUndefined => true
  | VNull, VNull => true
  | VBoolean x, VBoolean y => Bool.eqb x y
  | VNumber x, VNumber y => number_equals x y
  | VBigInt x, VBigInt y => x =? y
  | VString x, VString y => String.eqb x y
  | VElement x, VElement y => Nat.eqb x y
  | _, _ => false
  end.

End JS.
Export JS.

(* ===================================================================== *)
(** * The host contract *)
(* ===================================================================== *)

Module Dom.

(** A node of the host tree: its attribute store. *)
Record Element : Type := mkElement {
  attributes : gmap string string
}.

(** The [id] property of a node reflects its attribute "id": reading it
    gives the attribute's value, or the empty string when the node has no
    such attribute. *)
Definition id (e : Element) : string := default "" (attributes e !! "id").

(** A node nobody touched yet: no attribute, hence no identifier. *)
Definition blank : Element := {| attributes := ∅ |}.

#[global] Instance Element_inhabited : Inhabited Element := populate blank.

(** The host tree, as a heap of elements addressed by handle. *)
Abbreviation document := (gmap handle Element).

Definition getAttribute (d : document) (h : handle) (name : string)
  : option string :=
  attributes (d !!! h) !! name.

Definition setAttribute (d : document) (h : handle) (name v : string)
  : document :=
  <[h := {| attributes := <[name := v]> (attributes (d !!! h)) |}]> d.

Definition removeAttribute (d : document) (h : handle) (name : string)
  : document :=
  <[h := {| attributes := delete name (attributes (d !!! h)) |}]> d.

Definition get_id (d : document) (h : handle) : string := id (d !!! h).

(** Assigning to [id] writes the attribute "id". *)
Definition set_id (d : document) (h : handle) (v : string) : document :=
  setAttribute d h "id" v.

End Dom.

(* ===================================================================== *)
(** * The class *)
(* ===================================================================== *)

Module EasyAria.

(** The two kinds of [TypeError] the methods throw: the one of the
    [default] branch of the switch over the attribute ("Invalid attribute:
    ...") and the ones of the value checks ("... requires ...", "... only
    accepts ..."). *)
Inductive TypeError : Type :=
| InvalidAttribute
| InvalidValue.

(** What the class can reach: the host tree and the static [#idCounter]. *)
Record state : Type := mkState {
  elements : gmap handle Dom.Element;
  idCounter : Z
}.

Inductive result (A : Type) : Type :=
| Ok (a : A)
| Throw (e : TypeError).
Arguments Ok {A} a.
Arguments Throw {A} e.

(** Methods run on the state and either return or throw; a [throw] keeps
    whatever was written before it. *)
Definition M (A : Type) : Type := state -> result A * state.

Definition ret {A} (a : A) : M A := fun st => (Ok a, st).

Definition throw {A} (e : TypeError) : M A := fun st => (Throw e, st).

Definition bind {A B} (m : M A) (k : A -> M B) : M B :=
  fun st =>
    match m st with
    | (Ok a, st') => k a st'
    | (Throw e, st') => (Throw e, st')
    end.

Notation "'let*' x ':=' m 'in' k" := (bind m (fun x => k))
  (at level 10, x name, m at level 100, k at level 200).
Notation "'do' m 'in' k" := (bind m (fun _ => k))
  (at level 10, m at level 100, k at level 200).

Fixpoint mapM {A B} (f : A -> M B) (l : list A) : M (list B) :=
  match l with
  | [] => ret []
  | a :: l' => let* b := f a in let* bs := mapM f l' in ret (b :: bs)
  end.

(** Host operations lifted to methods. *)
Definition getAttribute (h : handle) (name : string) : M (option string) :=
  fun st => (Ok (Dom.getAttribute (elements st) h name), st).

Definition setAttribute (h : handle) (name v : string) : M unit :=
  fun st => (Ok tt, {| elements := Dom.setAttribute (elements st) h name v;
                       idCounter := idCounter st |}).

Definition removeAttribute (h : handle) (name : string) : M unit :=
  fun st => (Ok tt, {| elements := Dom.removeAttribute (elements st) h name;
                       idCounter := idCounter st |}).

Definition read_id (h : handle) : M string :=
  fun st => (Ok (Dom.get_id (elements st) h), st).

Definition write_id (h : handle) (v : string) : M unit :=
  fun st => (Ok tt, {| elements := Dom.set_id (elements st) h v;
                       idCounter := idCounter st |}).

(** [static #idCounter = 1] *)
Definition initial_idCounter : Z := 1.

(** [static #generateId()]: [`easy-aria-id-${this.#idCounter++}`].  The
    counter is kept as an integer; in the template it shows as its decimal
    digits, which is what [String] gives for the integers a counter
    reaches. *)
Definition generateId : M string :=
  fun st => (Ok ("easy-aria-id-" +:+ IntegerToString (idCounter st)),
             {| elements := elements st; idCounter := idCounter st + 1 |}).

(** [static #getId(el)] *)
Definition getId (el : value) : M string :=
  match el with
  | VElement h =>
      let* cur := read_id h in
      do (if negb (truthy cur)
          then (let* fresh := generateId in write_id h fresh)
          else ret tt) in
      read_id h
  | _ => ret ""
  end.

(** [#setAttr(attribute, value)] *)
Definition setAttr (this : handle) (attribute value : string) : M unit :=
  setAttribute this ("aria-" +:+ attribute) value.

(** A [case] label list: does the scrutinee equal one of the labels? *)
Definition one_of (s : string) (labels : list string) : bool :=
  existsb (String.eqb s) labels.

(** The label groups of the switch over the attribute, in source order. *)
Definition ArbitraryStringAttributes : list string :=
  ["keyshortcuts"; "label"; "placeholder"; "roledescription"; "valuetext"].

Definition IDREFAttributes : list string :=
  ["activedescendant"; "details"; "errormessage"].

Definition IDREFListAttributes : list string :=
  ["controls"; "describedby"; "flowto"; "labelledby"; "owns"].

Definition BooleanOnlyAttributes : list string :=
  ["atomic"; "busy"; "disabled"; "modal"; "multiline"; "multiselectable";
   "readonly"; "required"].

Definition NumberAttributes : list string :=
  ["colcount"; "colindex"; "colspan"; "level"; "posinset"; "rowcount";
   "rowindex"; "rowspan"; "setsize"; "valuemax"; "valuemin"; "valuenow"].

(** The token labels of the attributes that take a boolean or a token
    (second-level [switch (value)] of each group), [None] for any other
    attribute. *)
Definition BooleanWithTokenAttributes (attribute : string)
  : option (list string) :=
  if one_of attribute ["expanded"; "grabbed"; "hidden"; "selected"]
  then Some ["undefined"]
  else if one_of attribute ["checked"; "pressed"]
  then Some ["mixed"; "undefined"]
  else if String.eqb attribute "current"
  then Some ["page"; "step"; "location"; "date"; "time"]
  else if String.eqb attribute "haspopup"
  then Some ["menu"; "listbox"; "tree"; "grid"; "dialog"]
  else if String.eqb attribute "invalid"
  then Some ["grammar"; "spelling"]
  else None.

(** The token labels of the token-only attributes. *)
Definition TokenStringAttributes (attribute : string) : option (list string) :=
  if String.eqb attribute "autocomplete"
  then Some ["both"; "inline"; "list"; "none"]
  else if String.eqb attribute "dropeffect"
  then Some ["copy"; "execute"; "link"; "move"; "none"; "popup"]
  else if String.eqb attribute "live"
  then Some ["assertive"; "off"; "polite"]
  else if String.eqb attribute "orientation"
  then Some ["horizontal"; "undefined"; "vertical"]
  else if String.eqb attribute "relevant"
  then Some ["additions"; "additions text"; "all"; "removals"; "text"]
  else if String.eqb attribute "sort"
  then Some ["ascending"; "descending"; "none"; "other"]
  else None.

(** The closed vocabulary: the labels of the switch of [unset], in source
    order. *)
Definition vocabulary : list string :=
  ["keyshortcuts"; "label"; "placeholder"; "roledescription"; "valuetext";
   "activedescendant"; "details"; "errormessage";
   "controls"; "describedby"; "flowto"; "labelledby"; "owns";
   "atomic"; "busy"; "disabled"; "modal"; "multiline"; "multiselectable";
   "readonly"; "required";
   "expanded"; "grabbed"; "hidden"; "selected";
   "checked"; "current"; "haspopup"; "invalid"; "pressed";
   "autocomplete"; "dropeffect"; "live"; "orientation"; "relevant"; "sort";
   "colcount"; "colindex"; "colspan"; "level"; "posinset"; "rowcount";
   "rowindex"; "rowspan"; "setsize"; "valuemax"; "valuemin"; "valuenow"].

(** ** [set(attribute, value?)] *)

(** Inner [switch (value)] of a boolean-only attribute. *)
Definition set_boolean (this : handle) (attribute : string) (value : value)
  : M unit :=
  match value with
  | VUndefined => setAttr this attribute (BooleanToString true)
  | VBoolean b => setAttr this attribute (BooleanToString b)
  | _ => throw InvalidValue
  end.

(** Inner [switch (value)] of an attribute that takes a boolean or one of
    [tokens]. *)
Definition set_boolean_or_token (this : handle) (attribute : string)
  (tokens : list string) (value : value) : M unit :=
  match value with
  | VUndefined => setAttr this attribute (BooleanToString true)
  | VBoolean b => setAttr this attribute (BooleanToString b)
  | VString s =>
      if one_of s tokens then setAttr this attribute s
      else throw InvalidValue
  | _ => throw InvalidValue
  end.

(** Inner [switch (value)] of a token-only attribute. *)
Definition set_token (this : handle) (attribute : string)
  (tokens : list string) (value : value) : M unit :=
  match value with
  | VString s =>
      if one_of s tokens then setAttr this attribute s
      else throw InvalidValue
  | _ => throw InvalidValue
  end.

Definition set (this : handle) (attribute : string) (value : value)
  : M unit :=
  let attribute := toLowerCase attribute in
  if one_of attribute ArbitraryStringAttributes then
    match value with
    | VString s => setAttr this attribute s
    | _ => throw InvalidValue
    end
  else if one_of attribute IDREFAttributes then
    match value with
    | VElement _ =>
        let* ref := getId value in setAttr this attribute ref
    | VString s => setAttr this attribute s
    | _ => throw InvalidValue
    end
  else if one_of attribute IDREFListAttributes then
    match value with
    | VElement _ =>
        let* ref := getId value in setAttr this attribute ref
    | VArray items | VNodeList items =>
        let* refs := mapM getId items in
        setAttr this attribute (join " " (filter truthy refs))
    | VString s => setAttr this attribute s
    | _ => throw InvalidValue
    end
  else if one_of attribute BooleanOnlyAttributes then
    set_boolean this attribute value
  else
    match BooleanWithTokenAttributes attribute with
    | Some tokens => set_boolean_or_token this attribute tokens value
    | None =>
    match TokenStringAttributes attribute with
    | Some tokens => set_token this attribute tokens value
    | None =>
    if one_of attribute NumberAttributes then
      match value with
      | VBigInt _ | VNumber _ | VString _ =>
          let num := Number_ value in
          if isNaN num then throw InvalidValue
          else setAttr this attribute (NumberToString num)
      | _ => throw InvalidValue
      end
    else throw InvalidAttribute
    end end.

(** ** [unset(attribute)] *)

Definition unset (this : handle) (attribute : string) : M unit :=
  let attribute := toLowerCase attribute in
  if one_of attribute vocabulary
  then removeAttribute this ("aria-" +:+ attribute)
  else throw InvalidAttribute.

(** ** [get(attribute)] *)

(** The result of the host's [getAttribute] as a language value. *)
Definition of_attr (raw : option string) : value :=
  match raw with
  | Some s => VString s
  | None => VNull
  end.

(** Inner [switch (value)] of a token-only attribute; falling out of it
    reaches the final [return null]. *)
Definition get_token (tokens : list string) (raw : option string) : value :=
  match raw with
  | Some s => if one_of s tokens then VString s else VNull
  | None => VNull
  end.

(** Inner [switch (value)] of a boolean-only attribute. *)
Definition get_boolean (raw : option string) : value :=
  match raw with
  | Some s =>
      if String.eqb s "true" then VBoolean true
      else if String.eqb s "false" then VBoolean false
      else VNull
  | None => VNull
  end.

(** Inner [switch (value)] of a boolean attribute, with its tokens. *)
Definition get_boolean_or_token (tokens : list string) (raw : option string)
  : value :=
  match raw with
  | Some s =>
      if String.eqb s "true" then VBoolean true
      else if String.eqb s "false" then VBoolean false
      else if one_of s tokens then VString s
      else VNull
  | None => VNull
  end.

Definition get (this : handle) (attribute : string) : M value :=
  let attribute := toLowerCase attribute in
  let* value := getAttribute this ("aria-" +:+ attribute) in
  if one_of attribute
       ["activedescendant"; "controls"; "describedby"; "details";
        "errormessage"; "flowto"; "keyshortcuts"; "label"; "labelledby";
        "owns"; "placeholder"; "roledescription"; "valuetext"]
  then ret (of_attr value)
  else
    match TokenStringAttributes attribute with
    | Some tokens => ret (get_token tokens value)
    | None =>
    match BooleanWithTokenAttributes attribute with
    | Some tokens => ret (get_boolean_or_token tokens value)
    | None =>
    if one_of attribute BooleanOnlyAttributes
    then ret (get_boolean value)
    else if one_of attribute NumberAttributes then
      let num := Number_ (of_attr value) in
      if negb (isNaN num) then ret (VNumber num) else ret VNull
    else throw InvalidAttribute
    end end.

(** ** [getRole()], [setRole(role)] *)

Definition getRole (this : handle) : M value :=
  let* role := getAttribute this "role" in ret (of_attr role).

(** Both guards of [setRole] (no argument, not a string) throw a
    [TypeError] about the value. *)
Definition setRole (this : handle) (role : value) : M unit :=
  match role with
  | VString s => setAttribute this "role" s
  | _ => throw InvalidValue
  end.

(** ** Boolean methods *)

Definition isAtomic (this : handle) : M bool :=
  let* v := get this "atomic" in ret (strict_equals v (VBoolean true)).

Definition isBusy (this : handle) : M bool :=
  let* v := get this "busy" in ret (strict_equals v (VBoolean true)).

Definition isChecked (this : handle) : M bool :=
  let* v := get this "checked" in ret (strict_equals v (VBoolean true)).

Definition isCurrent (this : handle) (value : value) : M bool :=
  let* currentValue := get this "current" in
  if ToBoolean value then ret (strict_equals currentValue value)
  else ret (strict_equals currentValue (VBoolean true)
            || strict_equals currentValue (VString "page")
            || strict_equals currentValue (VString "step")
            || strict_equals currentValue (VString "location")
            || strict_equals currentValue (VString "date")
            || strict_equals currentValue (VString "time")).

Definition isDisabled (this : handle) : M bool :=
  let* v := get this "disabled" in ret (strict_equals v (VBoolean true)).

Definition isExpanded (this : handle) : M bool :=
  let* v := get this "expanded" in ret (strict_equals v (VBoolean true)).

Definition isGrabbed (this : handle) : M bool :=
  let* v := get this "grabbed" in ret (strict_equals v (VBoolean true)).

Definition hasPopup (this : handle) (value : value) : M bool :=
  let* currentValue := get this "haspopup" in
  if ToBoolean value then ret (strict_equals currentValue value)
  else ret (strict_equals currentValue (VBoolean true)
            || strict_equals currentValue (VString "menu")
            || strict_equals currentValue (VString "listbox")
            || strict_equals currentValue (VString "tree")
            || strict_equals currentValue (VString "grid")
            || strict_equals currentValue (VString "dialog")).

Definition isHidden (this : handle) : M bool :=
  let* v := get this "hidden" in ret (strict_equals v (VBoolean true)).

Definition isInvalid (this : handle) (value : value) : M bool :=
  let* currentValue := get this "invalid" in
  if ToBoolean value then ret (strict_equals currentValue value)
  else ret (strict_equals currentValue (VBoolean true)
            || strict_equals currentValue (VString "grammar")
            || strict_equals currentValue (VString "spelling")).

Definition isModal (this : handle) : M bool :=
  let* v := get this "modal" in ret (strict_equals v (VBoolean true)).

Definition isMultiline (this : handle) : M bool :=
  let* v := get this "multiline" in ret (strict_equals v (VBoolean true)).

Definition isMultiselectable (this : handle) : M bool :=
  let* v := get this "multiselectable" in
  ret (strict_equals v (VBoolean true)).

Definition isPressed (this : handle) : M bool :=
  let* v := get this "pressed" in ret (strict_equals v (VBoolean true)).

Definition isReadonly (this : handle) : M bool :=
  let* v := get this "readonly" in ret (strict_equals v (VBoolean true)).

Definition isRequired (this : handle) : M bool :=
  let* v := get this "required" in ret (strict_equals v (VBoolean true)).

Definition isSelected (this : handle) : M bool :=
  let* v := get this "selected" in ret (strict_equals v (VBoolean true)).

(** ** Setter methods *)

Definition check (this : handle) : M unit := set this "checked" VUndefined.

Definition uncheck (this : handle) : M unit :=
  set this "checked" (VBoolean false).

Definition toggleChecked (this : handle) : M unit :=
  let* b := isChecked this in set this "checked" (VBoolean (negb b)).

Definition control (this : handle) (value : value) : M unit :=
  set this "controls" value.

Definition describeWith (this : handle) (value : value) : M unit :=
  set this "describedby" value.

Definition disable (this : handle) : M unit := set this "disabled" VUndefined.

Definition enable (this : handle) : M unit :=
  set this "disabled" (VBoolean false).

Definition toggleDisabled (this : handle) : M unit :=
  let* b := isDisabled this in set this "disabled" (VBoolean (negb b)).

Definition expand (this : handle) : M unit := set this "expanded" VUndefined.

Definition collapse (this : handle) : M unit :=
  set this "expanded" (VBoolean false).

Definition toggleExpanded (this : handle) : M unit :=
  let* b := isExpanded this in set this "expanded" (VBoolean (negb b)).

Definition flowTo (this : handle) (value : value) : M unit :=
  set this "flowto" value.

Definition grab (this : handle) : M unit := set this "grabbed" VUndefined.

Definition ungrab (this : handle) : M unit :=
  set this "grabbed" (VBoolean false).

Definition toggleGrabbed (this : handle) : M unit :=
  let* b := isGrabbed this in set this "grabbed" (VBoolean (negb b)).

Definition hide (this : handle) : M unit := set this "hidden" VUndefined.

Definition unhide (this : handle) : M unit :=
  set this "hidden" (VBoolean false).

Definition toggleHidden (this : handle) : M unit :=
  let* b := isHidden this in set this "hidden" (VBoolean (negb b)).

Definition label (this : handle) (value : value) : M unit :=
  set this "label" value.

Definition labelWith (this : handle) (value : value) : M unit :=
  set this "labelledby" value.

Definition own (this : handle) (value : value) : M unit :=
  set this "owns" value.

Definition press (this : handle) : M unit := set this "pressed" VUndefined.

Definition unpress (this : handle) : M unit :=
  set this "pressed" (VBoolean false).

Definition togglePressed (this : handle) : M unit :=
  let* b := isPressed this in set this "pressed" (VBoolean (negb b)).

Definition require (this : handle) : M unit := set this "required" VUndefined.

Definition unrequire (this : handle) : M unit :=
  set this "required" (VBoolean false).

Definition toggleRequired (this : handle) : M unit :=
  let* b := isRequired this in set this "required" (VBoolean (negb b)).

Definition describeRole (this : handle) (value : value) : M unit :=
  set this "roledescription" value.

Definition select (this : handle) : M unit := set this "selected" VUndefined.

Definition unselect (this : handle) : M unit :=
  set this "selected" (VBoolean false).

Definition toggleSelected (this : handle) : M unit :=
  let* b := isSelected this in set this "selected" (VBoolean (negb b)).

End EasyAria.
Export EasyAria.

(* ===================================================================== *)
(** * Vocabulary of the statements *)
(* ===================================================================== *)

(** The value domains of the schema: what the outer switch of [set]
    distinguishes. *)
Inductive domain : Type :=
| ArbitraryString
| SingleReference
| ReferenceList
| BooleanOnly
| BooleanWithTokens (tokens : list string)
| EnumeratedTokens (tokens : list string)
| Number.

(** The schema registry: the domain of a lowercase attribute name, read off
    the case labels in the order [set] tries them. *)
Definition describe (attribute : string) : option domain :=
  if one_of attribute ArbitraryStringAttributes then Some ArbitraryString
  else if one_of attribute IDREFAttributes then Some SingleReference
  else if one_of attribute IDREFListAttributes then Some ReferenceList
  else if one_of attribute BooleanOnlyAttributes then Some BooleanOnly
  else match BooleanWithTokenAttributes attribute with
       | Some tokens => Some (BooleanWithTokens tokens)
       | None =>
       match TokenStringAttributes attribute with
       | Some tokens => Some (EnumeratedTokens tokens)
       | None =>
           if one_of attribute NumberAttributes then Some Number else None
       end end.

(** The attributes that take a boolean: the boolean-only ones and the ones
    that also take tokens. *)
Definition BooleanCapableAttributes : list string :=
  BooleanOnlyAttributes ++
  ["expanded"; "grabbed"; "hidden"; "selected"; "checked"; "pressed";
   "current"; "haspopup"; "invalid"].

(** The non-boolean tokens an attribute permits (none for a boolean-only
    attribute). *)
Definition permitted_tokens (attribute : string) : list string :=
  default [] (BooleanWithTokenAttributes attribute).

(** The attributes whose value is one reference or a list of them. *)
Definition ReferenceAttributes : list string :=
  IDREFAttributes ++ IDREFListAttributes.

(** The full name of an attribute in the store. *)
Definition aria (attribute : string) : string :=
  "aria-" +:+ toLowerCase attribute.

(** The [id] field and the attribute store of a node in a state. *)
Definition id_of (st : state) (h : handle) : string :=
  Dom.get_id (elements st) h.

Definition attributes_of (st : state) (h : handle) : gmap string string :=
  Dom.attributes (elements st !!! h).

(** The identifier generated at counter value [k]. *)
Definition generated (k : Z) : string :=
  "easy-aria-id-" +:+ IntegerToString k.

(** The identifiers generated at [k], [k+1], ..., [k+n-1]. *)
Fixpoint generated_from (k : Z) (n : nat) : list string :=
  match n with
  | O => []
  | S n' => generated k :: generated_from (k + 1) n'
  end.

(** Resolving a sequence of handles, left to right. *)
Definition resolve (hs : list handle) : M (list string) :=
  mapM getId (map VElement hs).

(** The element handles among the items of a collection, in order. *)
Fixpoint element_handles (items : list value) : list handle :=
  match items with
  | [] => []
  | VElement h :: rest => h :: element_handles rest
  | _ :: rest => element_handles rest
  end.

(** The string made of the given characters, one after the other. *)
Definition blank_string (chars : list string) : string :=
  fold_right String.append "" chars.

(** A value of the language: the number in it, if it is one, is a
    double. *)
Definition well_formed (v : value) : Prop :=
  match v with VNumber n => is_double n = true | _ => True end.

(** The canonical form of a value accepted by [set] for an attribute, as
    [get] reports it afterwards (in the state [st] reached by [set]): the
    number a numeric input denotes; [true] for an omitted boolean; the
    identifier(s) of the element(s) a reference names, joined by one space;
    the value itself otherwise. *)
Definition canonical (st : state) (attribute : string) (v : value) : value :=
  if one_of (toLowerCase attribute) NumberAttributes
  then VNumber (Number_ v)
  else match v with
       | VUndefined => VBoolean true
       | VElement h => VString (id_of st h)
       | VArray items | VNodeList items =>
           VString (join " " (map (id_of st) (element_handles items)))
       | _ => v
       end.

(** A page nobody touched, with the counter at its initial value. *)
Definition fresh_page : state :=
  {| elements := ∅; idCounter := initial_idCounter |}.

(** The identifier a collection item resolves to in a state where every
    element has one: its [id] for an element, the empty string otherwise. *)
Definition ref_in (st : state) (v : value) : string :=
  match v with
  | VElement h => id_of st h
  | _ => ""
  end.

(** [extends st st']: [st'] is [st] after some identifiers were resolved.
    No attribute other than "id" changed, the counter did not go back, and
    a node's [id] is the one it had or, where it had none, one generated at
    a counter value consumed in between. *)
Record extends (st st' : state) : Prop := mkExtends {
  ext_attributes : forall h key,
    key <> "id" -> attributes_of st' h !! key = attributes_of st h !! key;
  ext_counter : idCounter st <= idCounter st';
  ext_ids : forall h,
    id_of st' h = id_of st h \/
    (id_of st h = "" /\
     exists k, idCounter st <= k < idCounter st' /\ id_of st' h = generated k)
}.

(** The state after [#setAttr] wrote [v] under the full name [key]. *)
Definition written (st : state) (this : handle) (key v : string) : state :=
  {| elements := Dom.setAttribute (elements st) this key v;
     idCounter := idCounter st |}.

(** A call that is a no-op: it returns normally and leaves the state as it
    found it. *)
Definition no_op (m : M unit) (st : state) : Prop := m st = (Ok tt, st).

(** The raw string stored for an attribute of a node, if any. *)
Definition raw_of (st : state) (this : handle) (attribute : string)
  : option string :=
  attributes_of st this !! aria attribute.

(** The raw string stored for the attribute is exactly [s]. *)
Definition raw_is (st : state) (this : handle) (attribute s : string)
  : bool :=
  match raw_of st this attribute with
  | Some r => String.eqb r s
  | None => false
  end.

(** The element handles a value mentions: the ones [set] may resolve. *)
Definition value_handles (v : value) : list handle :=
  match v with
  | VElement h => [h]
  | VArray items | VNodeList items => element_handles items
  | _ => []
  end.

(** The methods that ask whether a boolean attribute is [true], with the
    attribute each reads. *)
Definition boolean_queries : list (string * (handle -> M bool)) :=
  [("atomic", isAtomic); ("busy", isBusy); ("checked", isChecked);
   ("disabled", isDisabled); ("expanded", isExpanded);
   ("grabbed", isGrabbed); ("hidden", isHidden); ("modal", isModal);
   ("multiline", isMultiline); ("multiselectable", isMultiselectable);
   ("pressed", isPressed); ("readonly", isReadonly);
   ("required", isRequired); ("selected", isSelected)].

(** The methods that ask for a token of a boolean-with-tokens attribute. *)
Definition token_queries : list (string * (handle -> value -> M bool)) :=
  [("current", isCurrent); ("haspopup", hasPopup); ("invalid", isInvalid)].

(** The attributes that come with a setter to [true], a setter to [false],
    a toggle and a query. *)
Record switch : Type := mkSwitch {
  sw_attribute : string;
  sw_on : handle -> M unit;
  sw_off : handle -> M unit;
  sw_toggle : handle -> M unit;
  sw_query : handle -> M bool
}.

Definition switches : list switch :=
  [mkSwitch "checked" check uncheck toggleChecked isChecked;
   mkSwitch "disabled" disable enable toggleDisabled isDisabled;
   mkSwitch "expanded" expand collapse toggleExpanded isExpanded;
   mkSwitch "grabbed" grab ungrab toggleGrabbed isGrabbed;
   mkSwitch "hidden" hide unhide toggleHidden isHidden;
   mkSwitch "pressed" press unpress togglePressed isPressed;
   mkSwitch "required" require unrequire toggleRequired isRequired;
   mkSwitch "selected" select unselect toggleSelected isSelected].

(** Resolve [items], then write the string [k] makes of their identifiers
    under "aria-<name>", or throw what [k] throws. *)
Definition resolve_then_write (this : handle) (attribute : string)
  (items : list value) (k : list string -> result string) : M unit :=
  fun st =>
    match mapM getId items st with
    | (Ok refs, st1) =>
        match k refs with
        | Ok s => (Ok tt, written st1 this (aria attribute) s)
        | Throw e => (Throw e, st1)
        end
    | (Throw e, st1) => (Throw e, st1)
    end.

(** [set(name, v)] resolves [items] and then writes or throws as [k] says;
    the items are among the elements [v] mentions, [k] can only throw when
    there is nothing to resolve, and when it does not throw the items are
    all the elements [v] mentions. *)
Definition set_factors (this : handle) (attribute : string) (v : value)
  (items : list value) (k : list string -> result string) : Prop :=
  (forall st,
     set this attribute v st = resolve_then_write this attribute items k st) /\
  (forall h, h ∈ element_handles items -> h ∈ value_handles v) /\
  (items = [] \/ forall refs, exists s, k refs = Ok s) /\
  (forall refs s, k refs = Ok s ->
     forall h, h ∈ value_handles v -> h ∈ element_handles items).

(** The node is one that resolving [handles] gives an identifier to: it
    is among them and carries none. *)
Definition receives_id (st : state) (handles : list handle) (h : handle)
  : bool :=
  bool_decide (h ∈ handles) && negb (truthy (id_of st h)).

(** The attribute store of a node once the elements among [handles] that
    carried no identifier have received theirs (the one they have in
    [st']): the store it had, with "id" written where the node is such an
    element. *)
Definition with_new_ids (st st' : state) (handles : list handle)
  (h : handle) : gmap string string :=
  if receives_id st handles h
  then <["id" := id_of st' h]> (attributes_of st h)
  else attributes_of st h.

(** The string starts with U+212A KELVIN SIGN. *)
Definition starts_with_kelvin (s : string) : bool :=
  match s with
  | String "226"%char (String "132"%char (String "170"%char _)) => true
  | _ => false
  end.

(** The characters of a number written out: digits, point, exponent
    mark, signs. *)
Definition is_numeric_char (c : ascii) : bool :=
  is_digit c || Ascii.eqb c "." || Ascii.eqb c "e" || Ascii.eqb c "+"
  || Ascii.eqb c "-".

Fixpoint all_chars (P : ascii -> bool) (s : string) : bool :=
  match s with
  | EmptyString => true
  | String c s' => P c && all_chars P s'
  end.

(** The rest of a literal after its digits: nothing, or an exponent part. *)
Definition exponent_or_end (r : string) : Prop :=
  match r with String c _ => c = "e"%char | EmptyString => True end.

(* ===================================================================== *)
(** * Facts about the JavaScript fragment *)
(* ===================================================================== *)

(** ** Rounding *)

Section Rounding.

Lemma reduce_double negative p k :
  reduce negative (xO p) (Pos.succ k) = reduce negative p k.
Proof.
  simpl. rewrite Pos.pred_succ. by destruct k.
Qed.

Lemma of_scaled_double negative M e :
  0 < M -> of_scaled negative (2 * M) (e - 1) = of_scaled negative M e.
Proof.
  intros HM. destruct M as [|p|p]; try lia. 
  change (2 * Z.pos p) with (Z.pos (xO p)). unfold of_scaled.
  destruct (Z.leb_spec 0 (e - 1)) as [H1|H1].
  - rewrite (proj2 (Z.leb_le 0 e)) by lia. f_equal. f_equal.
    replace e with (Z.succ (e - 1)) at 2 by lia.
    rewrite Z.pow_succ_r by lia. lia.
  - destruct (Z.leb_spec 0 e) as [H0|H0].
    + assert (e = 0) as -> by lia. simpl. by rewrite Z.pow_0_r, Z.mul_1_r.
    + replace (Z.to_pos (- (e - 1))) with (Pos.succ (Z.to_pos (- e))) by lia.
      apply reduce_double.
Qed.

Lemma of_scaled_shift negative M e j :
  0 < M -> 0 <= j ->
  of_scaled negative (M * 2 ^ j) (e - j) = of_scaled negative M e.
Proof.
  intros HM Hj. revert e. pattern j. apply natlike_ind; [| |done].
  - intros e. by rewrite Z.mul_1_r, Z.sub_0_r.
  - intros i Hi IH e. rewrite Z.pow_succ_r by done.
    replace (M * (2 * 2 ^ i)) with (2 * (M * 2 ^ i)) by lia.
    replace (e - Z.succ i) with (e - i - 1) by lia.
    rewrite of_scaled_double by (apply Z.mul_pos_pos; lia).
    apply IH.
Qed.

Lemma round_ratio_zero negative d : 0 < d -> round_ratio negative 0 d = Finite 0.
Proof.
  intros Hd. unfold round_ratio. cbv zeta. rewrite Z.mul_0_l, Z.div_0_l by lia.
  change (Z.max 0 (Z.log2 0 - 52)) with 0. rewrite Z.pow_0_r, !Z.mul_1_r.
  rewrite Z.div_0_l, Z.mod_0_l by lia.
  replace (2 * 0 ?= d) with Lt by (symmetry; apply Z.compare_lt_iff; lia).
  reflexivity.
Qed.

(** A ratio that is a double rounds to itself. *)
Lemma round_ratio_exact negative a d M e :
  0 < d -> 0 < M < 2 ^ 53 -> 0 <= e -> M * 2 ^ e < 2 ^ 2098 ->
  a * 2 ^ 1074 = d * (M * 2 ^ e) ->
  round_ratio negative a d = of_scaled negative M (e - 1074).
Proof.
  intros Hd [HM HM53] He Hmax Hexact. unfold round_ratio. cbv zeta. rewrite Hexact.
  assert (d * (M * 2 ^ e) / d = M * 2 ^ e) as ->
    by (rewrite Z.mul_comm; apply Z.div_mul; lia).
  rewrite Z.log2_mul_pow2 by lia.
  assert (Z.log2 M < 53) as Hlog by (apply Z.log2_lt_pow2; lia).
  set (q := Z.max 0 (e + Z.log2 M - 52)).
  assert (0 <= q <= e) as [Hq0 Hqe] by (unfold q; lia).
  assert (0 < 2 ^ q) as Hpq by (apply Z.pow_pos_nonneg; lia).
  assert (d * (M * 2 ^ e) = (M * 2 ^ (e - q)) * (d * 2 ^ q)) as ->.
  { replace e with ((e - q) + q) at 1 by lia.
    rewrite Z.pow_add_r by lia. lia. }
  rewrite Z.div_mul, Z.mod_mul by lia.
  replace (2 * 0 ?= d * 2 ^ q) with Lt
    by (symmetry; apply Z.compare_lt_iff; lia).
  assert (M * 2 ^ (e - q) * 2 ^ q = M * 2 ^ e) as ->.
  { rewrite <- Z.mul_assoc, <- Z.pow_add_r by lia. do 2 f_equal. lia. }
  rewrite (proj2 (Z.leb_gt _ _)) by done.
  replace (q - 1074) with (e - 1074 - (e - q)) by lia.
  apply of_scaled_shift; lia.
Qed.


Lemma abs_signed negative z : Z.abs (signed negative z) = Z.abs z.
Proof. destruct negative; simpl; lia. Qed.

Lemma odd_signed negative z : Z.odd (signed negative z) = Z.odd z.
Proof. destruct negative; simpl; [apply Z.odd_opp|done]. Qed.

(** The significand and exponent of a double. *)
Lemma is_double_exact negative p k :
  is_double (Double (Z.pos p) k) = true ->
  exists M e,
    0 < M < 2 ^ 53 /\ 0 <= e /\ M * 2 ^ e < 2 ^ 2098 /\
    Z.pos p * 2 ^ 1074 = 2 ^ Z.of_N k * (M * 2 ^ e) /\
    of_scaled negative M (e - 1074) = Double (signed negative (Z.pos p)) k.
Proof.
  unfold is_double. cbv zeta. change (Z.abs (Z.pos p)) with (Z.pos p).
  set (a := Z.pos p). assert (0 < a) as Ha by done.
  set (t := Z.max 0 (Z.log2 a - 52)).
  intros [Hmod Hk]%andb_true_iff. apply Z.eqb_eq in Hmod.
  assert (0 <= t) as Ht by (unfold t; lia).
  assert (0 < 2 ^ t) as Hpt by (apply Z.pow_pos_nonneg; lia).
  assert (a = a / 2 ^ t * 2 ^ t) as Hat.
  { rewrite (Z.div_mod a (2 ^ t)) at 1 by lia. rewrite Hmod. lia. }
  assert (0 < a / 2 ^ t) as HM0.
  { destruct (Z.lt_trichotomy (a / 2 ^ t) 0) as [H|[H|H]]; [nia|nia|done]. }
  assert (a / 2 ^ t < 2 ^ 53) as HM53.
  { pose proof (Z.log2_spec a Ha) as [_ Hup].
    apply Z.div_lt_upper_bound; [done|].
    rewrite <- Z.pow_add_r by lia.
    eapply Z.lt_le_trans; [exact Hup|].
    apply Z.pow_le_mono_r; unfold t; lia. }
  destruct k as [|kp].
  - (* an integer *)
    simpl in Hk. apply Z.ltb_lt in Hk.
    exists (a / 2 ^ t), (t + 1074). split; [done|]. split; [lia|].
    rewrite Z.pow_add_r by lia.
    split; [|split].
    + rewrite Z.mul_assoc, <- Hat.
      change (2 ^ 2098) with (2 ^ 1024 * 2 ^ 1074).
      apply Z.mul_lt_mono_pos_r; [done|lia].
    + simpl (Z.of_N 0). rewrite Z.pow_0_r, Z.mul_1_l, Z.mul_assoc, <- Hat. done.
    + replace (t + 1074 - 1074) with t by lia.
      unfold of_scaled. destruct (a / 2 ^ t) as [|q|q] eqn:E; try lia.
      rewrite (proj2 (Z.leb_le 0 t)) by done. by rewrite <- Hat.
  - (* a fraction *)
    simpl in Hk. apply andb_true_iff in Hk as [Hodd Hk]. apply Z.leb_le in Hk.
    assert (t = 0) as Ht0.
    { destruct (Z.eq_dec t 0) as [|Hne]; [done|]. exfalso.
      assert (Z.even a = true) as Hev.
      { rewrite Hat. replace t with (Z.succ (t - 1)) at 2 by lia.
        rewrite Z.pow_succ_r by lia.
        rewrite !Z.even_mul. simpl (Z.even 2). by rewrite orb_true_r. }
      unfold a in Hev. destruct p; simpl in Hev, Hodd; congruence. }
    rewrite Ht0, Z.pow_0_r, Z.div_1_r in HM53.
    exists a, (1074 - Z.pos kp). split; [done|]. split; [lia|].
    split; [|split].
    + apply Z.lt_trans with (2 ^ 53 * 2 ^ (1074 - Z.pos kp)).
      * apply Z.mul_lt_mono_pos_r; [apply Z.pow_pos_nonneg; lia|done].
      * rewrite <- Z.pow_add_r by lia. apply Z.pow_lt_mono_r; lia.
    + simpl (Z.of_N _).
      replace 1074 with (Z.pos kp + (1074 - Z.pos kp)) at 1 by lia.
      rewrite Z.pow_add_r by lia. lia.
    + replace (1074 - Z.pos kp - 1074) with (- Z.pos kp) by lia.
      unfold of_scaled, a. rewrite (proj2 (Z.leb_gt _ _)) by lia.
      simpl (Z.to_pos _). unfold a in Hodd.
      destruct p; simpl in Hodd; try done; by destruct kp.
Qed.

Lemma is_double_reduce negative p k :
  Z.pos p <= 2 ^ 53 -> Z.pos k <= 1074 ->
  is_double (reduce negative p k) = true.
Proof.
  revert k. induction p as [p IH|p IH|]; intros k Hp Hk.
  - (* odd *)
    assert (reduce negative p~1 k = Double (signed negative (Z.pos p~1)) (N.pos k))
      as -> by (by destruct k).
    unfold is_double. cbv zeta. rewrite abs_signed, odd_signed.
    change (Z.abs (Z.pos p~1)) with (Z.pos p~1).
    assert (Z.pos p~1 < 2 ^ 53) as Hlt.
    { destruct (Z.eq_dec (Z.pos p~1) (2 ^ 53)) as [E|]; [|lia].
      apply (f_equal Z.odd) in E. done. }
    assert (Z.log2 (Z.pos p~1) < 53) as Hl by (apply Z.log2_lt_pow2; lia).
    rewrite Z.max_l by lia. rewrite Z.pow_0_r, Z.mod_1_r.
    simpl. apply Z.leb_le. lia.
  - (* even *)
    destruct (Pos.eq_dec k 1%positive) as [->|Hne].
    + simpl. rewrite abs_signed. change (Z.abs (Z.pos p)) with (Z.pos p).
      assert (Z.pos p < 2 ^ 53) as Hlt by lia.
      assert (Z.log2 (Z.pos p) < 53) as Hl by (apply Z.log2_lt_pow2; lia).
      rewrite Z.max_l by lia. rewrite Z.pow_0_r, Z.mod_1_r.
      simpl. apply Z.ltb_lt.
      apply Z.lt_trans with (2 ^ 53); [done|]. by apply Z.pow_lt_mono_r.
    + assert (reduce negative p~0 k = reduce negative p (Pos.pred k))
        as -> by (by destruct k).
      apply IH; lia.
  - assert (reduce negative 1 k = Double (signed negative 1) (N.pos k))
      as -> by (by destruct k).
    unfold is_double. cbv zeta. rewrite abs_signed, odd_signed.
    simpl. apply Z.leb_le. lia.
Qed.

Lemma is_double_of_scaled negative M e :
  0 <= M <= 2 ^ 53 -> -1074 <= e -> M * 2 ^ (e + 1074) < 2 ^ 2098 ->
  is_double (of_scaled negative M e) = true.
Proof.
  intros [HM0 HM] He Hmax. destruct M as [|p|p]; [done| |lia].
  unfold of_scaled. destruct (Z.leb_spec 0 e) as [H0|H0].
  - unfold is_double. cbv zeta. rewrite abs_signed.
    assert (0 < 2 ^ e) as Hpe by (apply Z.pow_pos_nonneg; lia).
    rewrite Z.abs_eq by lia. simpl (0 =? 0)%N. cbv iota.
    apply andb_true_iff. split.
    + apply Z.eqb_eq. rewrite Z.log2_mul_pow2 by lia.
      destruct (Z.eq_dec (Z.pos p) (2 ^ 53)) as [E|Hne].
      * rewrite E. rewrite Z.log2_pow2 by lia.
        rewrite Z.max_r by lia. rewrite <- Z.pow_add_r by lia.
        replace (53 + e) with (52 + (e + 53 - 52)) by lia.
        rewrite Z.pow_add_r by lia. apply Z.mod_mul. 
        apply Z.pow_nonzero; lia.
      * assert (Z.log2 (Z.pos p) < 53) as Hl by (apply Z.log2_lt_pow2; lia).
        set (t := Z.max 0 (e + Z.log2 (Z.pos p) - 52)).
        assert (0 <= t <= e) as [Ht0 Hte] by (unfold t; lia).
        replace e with ((e - t) + t) at 1 by lia.
        rewrite Z.pow_add_r, Z.mul_assoc by lia. apply Z.mod_mul.
        apply Z.pow_nonzero; lia.
    + apply Z.ltb_lt. rewrite Z.pow_add_r in Hmax by lia.
      change (2 ^ 2098) with (2 ^ 1024 * 2 ^ 1074) in Hmax.
      rewrite Z.mul_assoc in Hmax.
      apply Z.mul_lt_mono_pos_r in Hmax; [done|lia].
  - apply is_double_reduce; lia.
Qed.

Lemma round_ratio_is_double negative a d :
  0 <= a -> 0 < d -> is_double (round_ratio negative a d) = true.
Proof.
  intros Ha Hd. unfold round_ratio. cbv zeta.
  set (num := a * 2 ^ 1074).
  assert (0 <= num) as Hnum by (unfold num; lia).
  set (q := Z.max 0 (Z.log2 (num / d) - 52)).
  assert (0 <= q) as Hq by (unfold q; lia).
  assert (0 < 2 ^ q) as Hpq by (apply Z.pow_pos_nonneg; lia).
  set (den := d * 2 ^ q). assert (0 < den) as Hden by (unfold den; lia).
  assert (0 <= num / den < 2 ^ 53) as [HM0 HM].
  { split; [apply Z.div_pos; lia|]. unfold den.
    rewrite <- Z.div_div by lia.
    assert (0 <= num / d) as HN by (apply Z.div_pos; lia).
    destruct (Z.eq_dec (num / d) 0) as [E|Hne].
    { rewrite E, Z.div_0_l by lia. lia. }
    pose proof (Z.log2_spec (num / d) ltac:(lia)) as [_ Hup].
    apply Z.div_lt_upper_bound; [done|].
    rewrite Z.mul_comm, <- Z.pow_add_r by lia.
    eapply Z.lt_le_trans; [exact Hup|].
    apply Z.pow_le_mono_r; unfold q; lia. }
  set (M := match 2 * (num mod den) ?= den with
            | Eq => if Z.even (num / den) then num / den else num / den + 1
            | Lt => num / den
            | Gt => num / den + 1
            end).
  assert (0 <= M <= 2 ^ 53) as HMb.
  { unfold M. destruct (_ ?= _); [destruct (Z.even _)| |]; lia. }
  destruct (Z.leb_spec (2 ^ 2098) (M * 2 ^ q)) as [Hov|Hov]; [done|].
  apply is_double_of_scaled; [done|lia|].
  by replace (q - 1074 + 1074) with q by lia.
Qed.

End Rounding.

(** ** Strings of digits *)

Section Strings.

Lemma string_app_cons c (s t : string) : String c s +:+ t = String c (s +:+ t).
Proof. reflexivity. Qed.

Lemma string_app_nil_l (t : string) : "" +:+ t = t.
Proof. reflexivity. Qed.

Lemma all_chars_app P s t :
  all_chars P (s +:+ t) = all_chars P s && all_chars P t.
Proof.
  induction s as [|c s IH]; [done|].
  rewrite string_app_cons. simpl. by rewrite IH, andb_assoc.
Qed.

Lemma all_chars_impl (P Q : ascii -> bool) s :
  (forall c, P c = true -> Q c = true) ->
  all_chars P s = true -> all_chars Q s = true.
Proof.
  intros H. induction s as [|c s IH]; simpl; [done|].
  intros [Hc Hs]%andb_true_iff. by rewrite (H _ Hc), IH.
Qed.

Lemma is_digit_numeric c : is_digit c = true -> is_numeric_char c = true.
Proof. unfold is_numeric_char. by intros ->. Qed.

Lemma string_app_nil (s : string) : s +:+ "" = s.
Proof.
  induction s as [|c s IH]; [done|]. by rewrite string_app_cons, IH.
Qed.

Lemma string_app_assoc (s t u : string) : (s +:+ t) +:+ u = s +:+ (t +:+ u).
Proof.
  induction s as [|c s IH]; [done|]. by rewrite !string_app_cons, IH.
Qed.

Lemma string_length_app (s t : string) :
  String.length (s +:+ t) = (String.length s + String.length t)%nat.
Proof.
  induction s as [|c s IH]; [done|]. rewrite string_app_cons. simpl.
  by rewrite IH.
Qed.

(** *** White space *)

Lemma strip_white_space_numeric c s :
  is_numeric_char c = true -> strip_white_space (String c s) = None.
Proof.
  destruct c as [[] [] [] [] [] [] [] []]; try discriminate; reflexivity.
Qed.

Lemma trim_start_numeric s :
  all_chars is_numeric_char s = true -> trim_start s = s.
Proof.
  destruct s as [|c s]; [done|]. simpl. intros [Hc _]%andb_true_iff.
  unfold trim_start. simpl. by rewrite strip_white_space_numeric.
Qed.

Lemma trim_end_numeric s :
  all_chars is_numeric_char s = true -> trim_end s = s.
Proof.
  induction s as [|c s IH]; [done|]. intros H.
  pose proof H as [Hc Hs]%andb_true_iff. cbn [trim_end].
  rewrite (trim_start_numeric _ H), IH; done.
Qed.

Lemma trim_numeric s : all_chars is_numeric_char s = true -> trim s = s.
Proof.
  intros H. unfold trim. by rewrite trim_start_numeric, trim_end_numeric.
Qed.

(** *** Digits *)

Lemma digits_value_from_app acc s t :
  digits_value_from acc (s +:+ t)
  = digits_value_from (digits_value_from acc s) t.
Proof.
  revert acc. induction s as [|c s IH]; intros acc; [done|].
  rewrite string_app_cons. simpl. apply IH.
Qed.

Lemma digits_value_from_zeros acc n :
  digits_value_from acc (zeros n) = acc * 10 ^ Z.of_nat n.
Proof.
  revert acc. induction n as [|n IH]; intros acc.
  - simpl. lia.
  - cbn [zeros digits_value_from]. rewrite IH, Nat2Z.inj_succ, Z.pow_succ_r by lia.
    change (digit_value "0") with 0. lia.
Qed.

Lemma all_digits_zeros n : all_chars is_digit (zeros n) = true.
Proof. induction n; simpl; [done|]. done. Qed.

Lemma string_of_uint_digits d :
  all_chars is_digit (NilEmpty.string_of_uint d) = true.
Proof. induction d; simpl; done. Qed.

Lemma digits_value_from_uint d acc :
  digits_value_from acc (NilEmpty.string_of_uint d)
  = acc * 10 ^ Z.of_N (DecimalPos.Unsigned.usize d) + Z.of_N (DecimalPos.Unsigned.of_lu (Decimal.rev d)).
Proof.
  revert acc.
  induction d as [|d IH|d IH|d IH|d IH|d IH|d IH|d IH|d IH|d IH|d IH];
    intros acc; [simpl; lia|..];
    (match goal with
     | |- context [Decimal.rev (?D d)] =>
         change (Decimal.rev (D d)) with (Decimal.revapp d (D Decimal.Nil));
         rewrite (DecimalPos.Unsigned.of_lu_revapp d (D Decimal.Nil))
     end;
     cbn [NilEmpty.string_of_uint digits_value_from DecimalPos.Unsigned.usize];
     rewrite IH;
     match goal with
     | |- context [digit_value ?c] =>
         let v := eval vm_compute in (digit_value c) in
         change (digit_value c) with v
     end;
     match goal with
     | |- context [DecimalPos.Unsigned.of_lu (?D Decimal.Nil)] =>
         let v := eval vm_compute in (DecimalPos.Unsigned.of_lu (D Decimal.Nil)) in
         change (DecimalPos.Unsigned.of_lu (D Decimal.Nil)) with v
     end;
     rewrite N2Z.inj_add, N2Z.inj_mul, N2Z.inj_pow, N2Z.inj_succ;
     rewrite Z.pow_succ_r by lia;
     simpl (Z.of_N (N.pos _)); simpl (Z.of_N 0); lia).
Qed.

Lemma IntegerToString_pos p :
  IntegerToString (Z.pos p) = NilEmpty.string_of_uint (Pos.to_uint p).
Proof. reflexivity. Qed.

Lemma IntegerToString_digits z :
  0 <= z -> all_chars is_digit (IntegerToString z) = true.
Proof.
  intros Hz. destruct z as [|p|p]; [done| |lia].
  rewrite IntegerToString_pos. apply string_of_uint_digits.
Qed.

Lemma IntegerToString_nonempty z : 0 <= z -> IntegerToString z <> "".
Proof.
  intros Hz. destruct z as [|p|p]; [done| |lia].
  rewrite IntegerToString_pos.
  pose proof (DecimalPos.Unsigned.to_uint_nonnil p) as H.
  destruct (Pos.to_uint p); done.
Qed.

Lemma digits_value_IntegerToString z :
  0 <= z -> digits_value (IntegerToString z) = z.
Proof.
  intros Hz. destruct z as [|p|p]; [done| |lia].
  rewrite IntegerToString_pos. unfold digits_value.
  rewrite digits_value_from_uint, <- DecimalPos.Unsigned.of_uint_alt, DecimalPos.Unsigned.of_to.
  simpl. lia.
Qed.

Lemma span_digits_app digits rest :
  all_chars is_digit digits = true ->
  match rest with String c _ => is_digit c = false | EmptyString => True end ->
  span_digits (digits +:+ rest) = (digits, rest).
Proof.
  intros Hd Hr. induction digits as [|c s IH].
  - rewrite string_app_nil_l. destruct rest as [|c r]; [done|]. simpl.
    by rewrite Hr.
  - simpl in Hd. apply andb_true_iff in Hd as [Hc Hs].
    rewrite string_app_cons. simpl. by rewrite Hc, IH.
Qed.

Lemma span_digits_all digits :
  all_chars is_digit digits = true -> span_digits digits = (digits, "").
Proof.
  intros H. rewrite <- (string_app_nil digits) at 1. by apply span_digits_app.
Qed.

Lemma string_take_drop n s : string_take n s +:+ string_drop n s = s.
Proof.
  revert s. induction n as [|n IH]; intros [|c s]; simpl; try done.
  by rewrite string_app_cons, IH.
Qed.

Lemma all_chars_take P n s :
  all_chars P s = true -> all_chars P (string_take n s) = true.
Proof.
  revert s. induction n as [|n IH]; intros [|c s]; simpl; try done.
  intros [Hc Hs]%andb_true_iff. by rewrite Hc, IH.
Qed.

Lemma all_chars_drop P n s :
  all_chars P s = true -> all_chars P (string_drop n s) = true.
Proof.
  revert s. induction n as [|n IH]; intros [|c s]; simpl; try done.
  intros [Hc Hs]%andb_true_iff. by apply IH.
Qed.

Lemma string_length_drop n s :
  String.length (string_drop n s) = (String.length s - n)%nat.
Proof.
  revert s. induction n as [|n IH]; intros [|c s]; simpl; try done. 
Qed.

End Strings.

(** ** Numbers written out and read back *)

Section Layout.

Lemma not_Infinity_digit c s :
  is_digit c = true -> String.eqb (String c s) "Infinity" = false.
Proof.
  intros Hc. destruct (String.eqb_spec (String c s) "Infinity") as [E|]; [|done].
  injection E as -> _. discriminate Hc.
Qed.

Lemma exponent_or_end_no_digit r :
  exponent_or_end r ->
  match r with String c _ => is_digit c = false | EmptyString => True end.
Proof. destruct r as [|c r]; [done|]. by intros ->. Qed.

Lemma StrUnsignedDecimalLiteral_integer ip r2 :
  all_chars is_digit ip = true -> ip <> "" -> exponent_or_end r2 ->
  StrUnsignedDecimalLiteral (ip +:+ r2)
  = match ExponentPart r2 with
    | Some e => decimal_to_double false (digits_value ip) (e - 0)
    | None => NaN
    end.
Proof.
  intros Hip Hne Hr. unfold StrUnsignedDecimalLiteral.
  destruct ip as [|c ip']; [done|]. rewrite string_app_cons.
  rewrite not_Infinity_digit by (simpl in Hip; by apply andb_true_iff in Hip as [? _]).
  rewrite <- string_app_cons.
  rewrite span_digits_app by (done || by apply exponent_or_end_no_digit).
  assert ((let (fp, r2') :=
             match r2 with
             | String c0 r => if Ascii.eqb c0 "." then span_digits r else ("", r2)
             | EmptyString => ("", r2)
             end in
           match String c ip' +:+ fp, ExponentPart r2' with
           | String _ _ as digits, Some e =>
               decimal_to_double false (digits_value digits)
                 (e - Z.of_nat (String.length fp))
           | _, _ => NaN
           end)
          = match String c ip' +:+ "", ExponentPart r2 with
            | String _ _ as digits, Some e =>
                decimal_to_double false (digits_value digits) (e - 0)
            | _, _ => NaN
            end) as ->.
  { destruct r2 as [|c0 r]; [done|]. simpl in Hr. subst c0. done. }
  rewrite string_app_nil. done.
Qed.

Lemma StrUnsignedDecimalLiteral_fraction ip fp r2 :
  all_chars is_digit ip = true -> ip <> "" ->
  all_chars is_digit fp = true -> exponent_or_end r2 ->
  StrUnsignedDecimalLiteral (ip +:+ String "." (fp +:+ r2))
  = match ExponentPart r2 with
    | Some e => decimal_to_double false (digits_value (ip +:+ fp))
                  (e - Z.of_nat (String.length fp))
    | None => NaN
    end.
Proof.
  intros Hip Hne Hfp Hr. unfold StrUnsignedDecimalLiteral.
  destruct ip as [|c ip']; [done|]. rewrite string_app_cons.
  rewrite not_Infinity_digit by (simpl in Hip; by apply andb_true_iff in Hip as [? _]).
  rewrite <- string_app_cons.
  rewrite span_digits_app by done.
  change (Ascii.eqb "." ".") with true. cbv iota.
  rewrite span_digits_app by (done || by apply exponent_or_end_no_digit).
  rewrite string_app_cons. done.
Qed.

Lemma ExponentPart_exponent e :
  ExponentPart ((if e <? 0 then "e-" else "e+") +:+ IntegerToString (Z.abs e))
  = Some e.
Proof.
  pose proof (IntegerToString_digits (Z.abs e) ltac:(lia)) as Hd.
  pose proof (IntegerToString_nonempty (Z.abs e) ltac:(lia)) as Hne.
  pose proof (digits_value_IntegerToString (Z.abs e) ltac:(lia)) as Hv.
  set (ds := IntegerToString (Z.abs e)) in *. clearbody ds.
  destruct (Z.ltb_spec e 0) as [He|He].
  - change ("e-" +:+ ds) with (String "e" (String "-" ds)).
    unfold ExponentPart. simpl. rewrite span_digits_all by done.
    destruct ds; [done|]. rewrite Hv. simpl. f_equal. lia.
  - change ("e+" +:+ ds) with (String "e" (String "+" ds)).
    unfold ExponentPart. simpl. rewrite span_digits_all by done.
    destruct ds; [done|]. rewrite Hv. simpl. f_equal. lia.
Qed.

Lemma decimal_to_double_scale negative D j E :
  0 <= j -> 0 <= E ->
  decimal_to_double negative (D * 10 ^ j) E
  = decimal_to_double negative D (j + E).
Proof.
  intros Hj HE. unfold decimal_to_double.
  rewrite !(proj2 (Z.leb_le 0 _)) by lia.
  by rewrite Z.pow_add_r, Z.mul_assoc by lia.
Qed.

Lemma digits_value_leading_zeros n s :
  digits_value (String "0" (zeros n +:+ s)) = digits_value s.
Proof.
  unfold digits_value. simpl. 
  by rewrite digits_value_from_app, digits_value_from_zeros.
Qed.

Lemma string_take_nonempty n s : (0 < n)%nat -> s <> "" -> string_take n s <> "".
Proof. destruct n; [lia|]. by destruct s. Qed.

(** A number written out is read back as the decimal it shows. *)
Lemma StrUnsignedDecimalLiteral_layout digits n :
  all_chars is_digit digits = true -> digits <> "" ->
  StrUnsignedDecimalLiteral (layout digits n)
  = decimal_to_double false (digits_value digits)
      (n - Z.of_nat (String.length digits)).
Proof.
  intros Hd Hne. unfold layout. cbv zeta.
  set (k := Z.of_nat (String.length digits)).
  destruct ((-5 <=? n) && (n <=? 21)).
  - destruct (Z.leb_spec k n) as [Hkn|Hkn]; [|destruct (Z.ltb_spec 0 n) as [Hn|Hn]].
    + (* digits and zeros *)
      rewrite <- (string_app_nil (digits +:+ _)).
      rewrite StrUnsignedDecimalLiteral_integer; [| |by destruct digits|done].
      2:{ by rewrite all_chars_app, Hd, all_digits_zeros. }
      cbn [ExponentPart]. unfold digits_value.
      rewrite digits_value_from_app, digits_value_from_zeros.
      fold (digits_value digits). rewrite Z2Nat.id by lia.
      rewrite decimal_to_double_scale by lia. f_equal. lia.
    + (* a point inside the digits *)
      change ("." +:+ ?s) with (String "." s).
      rewrite <- (string_app_nil (string_drop _ _)).
      rewrite StrUnsignedDecimalLiteral_fraction;
        [|by apply all_chars_take|apply string_take_nonempty; [lia|done]
         |by apply all_chars_drop|done].
      cbn [ExponentPart]. rewrite string_take_drop, string_length_drop.
      f_equal. unfold k. lia.
    + (* zeros after the point *)
      change ("0." +:+ ?s) with ("0" +:+ String "." s).
      rewrite <- (string_app_nil (zeros _ +:+ _)).
      rewrite StrUnsignedDecimalLiteral_fraction; [|done|done| |done].
      2:{ by rewrite all_chars_app, Hd, all_digits_zeros. }
      cbn [ExponentPart]. change ("0" +:+ ?s) with (String "0" s).
      rewrite digits_value_leading_zeros, string_length_app.
      f_equal. rewrite Nat2Z.inj_add.
      assert (String.length (zeros (Z.to_nat (- n))) = Z.to_nat (- n)) as ->
        by (induction (Z.to_nat (- n)); simpl; congruence).
      unfold k. lia.
  - (* exponent notation *)
    destruct digits as [|c0 [|c1 rest]]; [done| |].
    + change (String c0 ?s) with (String c0 "" +:+ s).
      rewrite StrUnsignedDecimalLiteral_integer; [|done|done|].
      2:{ by destruct (n - 1 <? 0). }
      rewrite ExponentPart_exponent. f_equal. unfold k. simpl. lia.
    + change (String c0 ("." +:+ ?s)) with (String c0 "" +:+ String "." s).
      simpl in Hd. apply andb_true_iff in Hd as [Hc0 Hd].
      rewrite StrUnsignedDecimalLiteral_fraction; [|by simpl; rewrite Hc0|done|done|].
      2:{ by destruct (n - 1 <? 0). }
      rewrite ExponentPart_exponent. f_equal. unfold k.
      cbn [String.length]. lia.
Qed.

Lemma layout_numeric digits n :
  all_chars is_digit digits = true -> digits <> "" ->
  all_chars is_numeric_char (layout digits n) = true /\
  exists c r, layout digits n = String c r /\ is_digit c = true.
Proof.
  intros Hd Hne.
  assert (all_chars is_numeric_char digits = true) as Hnum
    by (revert Hd; apply all_chars_impl, is_digit_numeric).
  assert (forall j, all_chars is_numeric_char (zeros j) = true) as Hz
    by (intros j; apply (all_chars_impl is_digit); [apply is_digit_numeric|apply all_digits_zeros]).
  assert (forall e, all_chars is_numeric_char
            ((if e <? 0 then "e-" else "e+") +:+ IntegerToString (Z.abs e)) = true) as He.
  { intros e. rewrite all_chars_app. apply andb_true_iff. split.
    - by destruct (e <? 0).
    - apply (all_chars_impl is_digit); [apply is_digit_numeric|].
      apply IntegerToString_digits. lia. }
  unfold layout. cbv zeta.
  destruct ((-5 <=? n) && (n <=? 21)).
  - destruct (Z.leb_spec (Z.of_nat (String.length digits)) n) as [Hkn|Hkn];
      [|destruct (Z.ltb_spec 0 n) as [Hn|Hn]].
    + split; [by rewrite all_chars_app, Hnum, Hz|].
      destruct digits as [|c r]; [done|]. rewrite string_app_cons.
      eexists _, _. split; [done|]. simpl in Hd. by apply andb_true_iff in Hd as [? _].
    + split.
      * rewrite !all_chars_app, all_chars_take, all_chars_drop by done. done.
      * destruct digits as [|c r]; [done|].
        destruct (Z.to_nat n) as [|j] eqn:E; [lia|]. simpl.
        rewrite string_app_cons. eexists _, _. split; [done|].
        simpl in Hd. by apply andb_true_iff in Hd as [? _].
    + split; [by rewrite !all_chars_app, Hnum, Hz|]. by eexists _, _.
  - destruct digits as [|c0 [|c1 rest]]; [done| |].
    + simpl in Hd. apply andb_true_iff in Hd as [Hc0 _]. split.
      * cbn [all_chars]. rewrite (is_digit_numeric _ Hc0). apply He.
      * by eexists _, _.
    + simpl in Hd. apply andb_true_iff in Hd as [Hc0 Hd]. split.
      * cbn [all_chars]. rewrite (is_digit_numeric _ Hc0).
        rewrite !all_chars_app.
        rewrite (all_chars_impl is_digit is_numeric_char (String c1 rest)
                   is_digit_numeric Hd).
        pose proof (He (n - 1)) as H. rewrite all_chars_app in H.
        apply andb_true_iff in H as [-> ->]. done.
      * by eexists _, _.
Qed.

End Layout.

Section RoundTrip.

Lemma same_number_eq a b : same_number a b = true -> a = b.
Proof.
  destruct a as [|x|m k], b as [|y|m' k']; try done; simpl.
  - by intros ->%Bool.eqb_prop.
  - intros [->%Z.eqb_eq ->%N.eqb_eq]%andb_true_iff. done.
Qed.

Lemma candidate_ok x a d n k c :
  0 <= a -> 0 < d -> candidate x a d n k = Some c ->
  0 <= fst c /\ accepts x c = true.
Proof.
  intros Ha Hd. unfold candidate.
  set (scaled := if n <=? k then (a * 10 ^ (k - n), d) else (a, d * 10 ^ (n - k))).
  assert (0 <= fst scaled /\ 0 < snd scaled) as [Hnum Hden].
  { unfold scaled. destruct (Z.leb_spec n k); simpl.
    - split; [|done]. apply Z.mul_nonneg_nonneg; [done|]. apply Z.pow_nonneg. lia.
    - split; [done|]. apply Z.mul_pos_pos; [done|]. apply Z.pow_pos_nonneg; lia. }
  destruct scaled as [num den]. simpl in Hnum, Hden. cbv zeta.
  assert (0 <= num / den) as Hlo by (apply Z.div_pos; lia).
  set (low := (num / den, n)).
  set (high := if num / den + 1 =? 10 ^ k then (10 ^ (k - 1), n + 1)
               else (num / den + 1, n)).
  assert (0 <= fst low) as Hl by done.
  assert (0 <= fst high) as Hh.
  { unfold high. destruct (_ =? _); simpl; [apply Z.pow_nonneg|]; lia. }
  destruct (accepts x low) eqn:El, (accepts x high) eqn:Eh; [| | |done].
  - destruct (_ ?= _); [destruct (Z.even _)| |]; by intros [= <-].
  - by intros [= <-].
  - by intros [= <-].
Qed.

Lemma shortest_ok fuel p j k s n :
  is_double (Double (Z.pos p) j) = true ->
  shortest fuel (Double (Z.pos p) j) (Z.pos p) (Z.of_N j) k = (s, n) ->
  0 <= s /\
  decimal_to_double false s (n - digits_count s) = Double (Z.pos p) j.
Proof.
  intros Hx. revert k. induction fuel as [|fuel IH]; intros k.
  - (* the exact decimal expansion *)
    cbn [shortest]. intros [= <- <-].
    assert (0 < 5 ^ Z.of_N j) as H5 by (apply Z.pow_pos_nonneg; lia).
    split; [lia|].
    replace (digits_count (Z.pos p * 5 ^ Z.of_N j) - Z.of_N j
             - digits_count (Z.pos p * 5 ^ Z.of_N j)) with (- Z.of_N j) by lia.
    destruct (is_double_exact false p j Hx) as (M & e & HM & He & Hmax & Hex & Hof).
    change (signed false (Z.pos p)) with (Z.pos p) in Hof. rewrite <- Hof.
    unfold decimal_to_double. destruct (Z.leb_spec 0 (- Z.of_N j)) as [Hj|Hj].
    + assert (Z.of_N j = 0) as Hj0 by lia. rewrite Hj0 in *.
      rewrite Z.opp_0, !Z.pow_0_r, !Z.mul_1_r.
      rewrite Z.pow_0_r in Hex. by apply round_ratio_exact.
    + rewrite Z.opp_involutive.
      apply round_ratio_exact; try done; [apply Z.pow_pos_nonneg; lia|].
      change 10 with (2 * 5). rewrite Z.pow_mul_l.
      rewrite <- (Z.mul_assoc (2 ^ _)), (Z.mul_comm (5 ^ _)), Z.mul_assoc, <- Hex.
      lia.
  - cbn [shortest].
    destruct (candidate _ _ _ _ k) as [c|] eqn:E; [|apply IH].
    intros ->.
    apply candidate_ok in E as [Hs Hc]; [|done|apply Z.pow_pos_nonneg; lia].
    split; [done|]. by apply same_number_eq.
Qed.

Lemma StringToNumber_layout (negative : bool) digits n :
  all_chars is_digit digits = true -> digits <> "" ->
  StringToNumber ((if negative then "-" else "") +:+ layout digits n)
  = let x := decimal_to_double false (digits_value digits)
               (n - Z.of_nat (String.length digits)) in
    if negative then negate x else x.
Proof.
  intros Hd Hne.
  destruct (layout_numeric digits n Hd Hne) as (Hnum & c & r & E & Hc).
  cbv zeta. rewrite <- (StrUnsignedDecimalLiteral_layout digits n Hd Hne).
  unfold StringToNumber. destruct negative.
  - change ("-" +:+ ?s) with (String "-" s).
    rewrite trim_numeric by (simpl; by rewrite Hnum).
    assert (NonDecimalIntegerLiteral (String "-" (layout digits n)) = None) as ->.
    { rewrite E. by destruct r. }
    done.
  - rewrite string_app_nil_l, trim_numeric by done. rewrite E.
    assert (NonDecimalIntegerLiteral (String c r) = None) as ->.
    { destruct r as [|c' [|c'' r']]; try done. simpl.
      destruct (Ascii.eqb c "0"); [|done].
      assert (is_numeric_char c' = true) as Hc'.
      { rewrite E in Hnum. simpl in Hnum.
        by apply andb_true_iff in Hnum as [_ [? _]%andb_true_iff]. }
      assert (radix_of c' = None) as ->; [|done].
      clear -Hc'.
      destruct c' as [[] [] [] [] [] [] [] []]; try discriminate; reflexivity. }
    assert (Ascii.eqb c "+" = false) as ->
      by (destruct (Ascii.eqb_spec c "+") as [->|]; done).
    assert (Ascii.eqb c "-" = false) as ->
      by (destruct (Ascii.eqb_spec c "-") as [->|]; done).
    done.
Qed.

(** [String] then [Number] gives back every number. *)
Theorem StringToNumber_NumberToString x :
  is_double x = true -> StringToNumber (NumberToString x) = x.
Proof.
  intros Hx. destruct x as [|[]|m k]; [by vm_compute..|].
  destruct m as [|p|p].
  - destruct k as [|k]; [by vm_compute|]. discriminate Hx.
  - unfold NumberToString. change (Z.abs (Z.pos p)) with (Z.pos p).
    destruct (shortest _ _ _ _ _) as [s n] eqn:E.
    apply shortest_ok in E as [Hs E]; [|done].
    change (Z.pos p <? 0) with false. cbv iota.
    rewrite (StringToNumber_layout false)
      by (by apply IntegerToString_digits || by apply IntegerToString_nonempty).
    by rewrite digits_value_IntegerToString.
  - unfold NumberToString. change (Z.abs (Z.neg p)) with (Z.pos p).
    destruct (shortest _ _ _ _ _) as [s n] eqn:E.
    apply shortest_ok in E as [Hs E]; [|done].
    change (Z.neg p <? 0) with true. cbv iota.
    rewrite (StringToNumber_layout true)
      by (by apply IntegerToString_digits || by apply IntegerToString_nonempty).
    rewrite digits_value_IntegerToString by done.
    unfold digits_count in E. by rewrite E.
Qed.

Lemma NumberToString_inj x y :
  is_double x = true -> is_double y = true ->
  NumberToString x = NumberToString y -> x = y.
Proof.
  intros Hx Hy E.
  by rewrite <- (StringToNumber_NumberToString x), E,
    StringToNumber_NumberToString.
Qed.

End RoundTrip.

(** What [String] gives for some numbers: fractions, an integer with more
    digits than a double holds, the threshold of the exponent notation on
    either side, the smallest double. *)
Example NumberToString_examples :
  NumberToString (Double 1 1) = "0.5" /\
  NumberToString (decimal_to_double false 1 (-1)) = "0.1" /\
  NumberToString (decimal_to_double true 435 (-2)) = "-4.35" /\
  NumberToString (Finite 123456789012345680000) = "123456789012345680000" /\
  NumberToString (Finite (10 ^ 21)) = "1e+21" /\
  NumberToString (decimal_to_double false 1 (-6)) = "0.000001" /\
  NumberToString (decimal_to_double false 1 (-7)) = "1e-7" /\
  NumberToString (Double 1 1074) = "5e-324".
Proof. by vm_compute. Qed.

(** What [Number] gives for some strings. *)
Example StringToNumber_examples :
  StringToNumber "007" = Finite 7 /\
  StringToNumber " 12 " = Finite 12 /\
  StringToNumber ".5" = Double 1 1 /\
  StringToNumber "5." = Finite 5 /\
  StringToNumber "-1.5e1" = Finite (-15) /\
  StringToNumber "0x1F" = Finite 31 /\
  StringToNumber "0b101" = Finite 5 /\
  StringToNumber "0o17" = Finite 15 /\
  StringToNumber "+Infinity" = Infinity false /\
  StringToNumber "1e400" = Infinity false /\
  StringToNumber "9007199254740993" = Finite 9007199254740992 /\
  StringToNumber "." = NaN /\
  StringToNumber "1e" = NaN /\
  StringToNumber "-0x10" = NaN /\
  StringToNumber "12px" = NaN /\
  StringToNumber "1 2" = NaN.
Proof. by vm_compute. Qed.

(** For the integers a counter of identifiers reaches, [String] gives the
    decimal digits. *)
Example NumberToString_counter :
  Forall (fun z => NumberToString (Finite z) = IntegerToString z)
    [1; 2; 9; 10; 11; 100; 4096; 65535; 1000000].
Proof. repeat (constructor; [by vm_compute|]). constructor. Qed.

(** ** The numbers [Number] returns *)

Section Results.

Lemma is_double_negate x : is_double (negate x) = is_double x.
Proof.
  destruct x as [| |m k]; try done. simpl.
  by rewrite Z.abs_opp, Z.odd_opp.
Qed.

Lemma decimal_to_double_is_double negative D E :
  0 <= D -> is_double (decimal_to_double negative D E) = true.
Proof.
  intros HD. unfold decimal_to_double. destruct (Z.leb_spec 0 E).
  - apply round_ratio_is_double; [|done].
    apply Z.mul_nonneg_nonneg; [done|]. apply Z.pow_nonneg. lia.
  - apply round_ratio_is_double; [done|]. apply Z.pow_pos_nonneg; lia.
Qed.

Lemma digit_value_nonneg c : is_digit c = true -> 0 <= digit_value c.
Proof.
  unfold is_digit, digit_value. cbv zeta.
  intros [H _]%andb_true_iff. apply N.leb_le in H. lia.
Qed.

Lemma digits_value_from_nonneg s acc :
  0 <= acc -> all_chars is_digit s = true -> 0 <= digits_value_from acc s.
Proof.
  revert acc. induction s as [|c s IH]; intros acc Hacc; [done|]. simpl.
  intros [Hc Hs]%andb_true_iff. apply IH; [|done].
  pose proof (digit_value_nonneg c Hc). lia.
Qed.

Lemma span_digits_digits s : all_chars is_digit (fst (span_digits s)) = true.
Proof.
  induction s as [|c s IH]; [done|]. simpl.
  destruct (is_digit c) eqn:E; [|done].
  destruct (span_digits s) as [ds r]. simpl in *. by rewrite E.
Qed.

Lemma StrUnsignedDecimalLiteral_is_double s :
  is_double (StrUnsignedDecimalLiteral s) = true.
Proof.
  unfold StrUnsignedDecimalLiteral. destruct (String.eqb s "Infinity"); [done|].
  pose proof (span_digits_digits s) as Hip.
  destruct (span_digits s) as [ip r1]. simpl in Hip.
  set (second := match r1 with
                 | String c r => if Ascii.eqb c "." then span_digits r else ("", r1)
                 | EmptyString => ("", r1)
                 end).
  assert (all_chars is_digit (fst second) = true) as Hfp.
  { unfold second. destruct r1 as [|c r]; [done|].
    destruct (Ascii.eqb c "."); [apply span_digits_digits|done]. }
  destruct second as [fp r2]. simpl in Hfp.
  destruct (ip +:+ fp) as [|c ds] eqn:E; [done|].
  destruct (ExponentPart r2); [|done].
  apply decimal_to_double_is_double. rewrite <- E.
  apply digits_value_from_nonneg; [done|]. by rewrite all_chars_app, Hip, Hfp.
Qed.

Lemma radix_digit_nonneg c d : radix_digit c = Some d -> 0 <= d.
Proof.
  unfold radix_digit. cbv zeta. set (n := N_of_ascii c).
  destruct ((48 <=? n)%N && (n <=? 57)%N) eqn:E1.
  { apply andb_true_iff in E1 as [E1 _]. apply N.leb_le in E1.
    intros [= <-]. lia. }
  destruct ((97 <=? n)%N && (n <=? 102)%N) eqn:E2.
  { apply andb_true_iff in E2 as [E2 _]. apply N.leb_le in E2.
    intros [= <-]. lia. }
  destruct ((65 <=? n)%N && (n <=? 70)%N) eqn:E3; [|done].
  apply andb_true_iff in E3 as [E3 _]. apply N.leb_le in E3.
  intros [= <-]. lia.
Qed.

Lemma radix_value_from_nonneg radix s acc v :
  0 <= radix -> 0 <= acc -> radix_value_from radix acc s = Some v -> 0 <= v.
Proof.
  intros Hr. revert acc. induction s as [|c s IH]; intros acc Hacc; simpl.
  - by intros [= <-].
  - destruct (radix_digit c) as [d|] eqn:E; [|done].
    destruct (d <? radix); [|done]. apply IH.
    apply radix_digit_nonneg in E. nia.
Qed.

Lemma NonDecimalIntegerLiteral_is_double s n :
  NonDecimalIntegerLiteral s = Some n -> is_double n = true.
Proof.
  unfold NonDecimalIntegerLiteral.
  destruct s as [|z [|c [|c' r]]]; try done.
  destruct (Ascii.eqb z "0"); [|done].
  destruct (radix_of c) as [radix|] eqn:Er; [|done].
  destruct (radix_value_from _ _ _) as [v|] eqn:Ev; [|done].
  intros [= <-]. apply round_ratio_is_double; [|done].
  apply (radix_value_from_nonneg radix (String c' r) 0); [|done|done].
  unfold radix_of in Er.
  repeat (destruct (_ || _) in Er; [injection Er as <-; lia|]). done.
Qed.

(** [Number] of a string is a double, an infinity or [NaN]. *)
Lemma StringToNumber_is_double s : is_double (StringToNumber s) = true.
Proof.
  unfold StringToNumber. destruct (trim s) as [|c r]; [done|].
  destruct (NonDecimalIntegerLiteral _) as [n|] eqn:E.
  { by apply NonDecimalIntegerLiteral_is_double in E. }
  destruct (Ascii.eqb c "+"); [apply StrUnsignedDecimalLiteral_is_double|].
  destruct (Ascii.eqb c "-"); [|apply StrUnsignedDecimalLiteral_is_double].
  rewrite is_double_negate. apply StrUnsignedDecimalLiteral_is_double.
Qed.

(** *** Strings of white space *)

Lemma strip_white_space_app c s :
  In c StrWhiteSpaceChar -> strip_white_space (c +:+ s) = Some s.
Proof.
  intros H. repeat (destruct H as [<-|H]; [reflexivity|]). destruct H.
Qed.

Lemma StrWhiteSpaceChar_nonempty c :
  In c StrWhiteSpaceChar -> (1 <= String.length c)%nat.
Proof.
  intros H. repeat (destruct H as [<-|H]; [simpl; lia|]). destruct H.
Qed.

Lemma trim_start_upto_blank chars :
  Forall (fun c => In c StrWhiteSpaceChar) chars ->
  forall fuel, (length chars <= fuel)%nat ->
  trim_start_upto fuel (blank_string chars) = "".
Proof.
  induction 1 as [|c chars Hc _ IH]; intros fuel Hfuel.
  - by destruct fuel.
  - destruct fuel as [|fuel]; [simpl in Hfuel; lia|].
    cbn [blank_string fold_right trim_start_upto].
    rewrite strip_white_space_app by done. apply IH. simpl in Hfuel. lia.
Qed.

Lemma blank_string_length chars :
  Forall (fun c => In c StrWhiteSpaceChar) chars ->
  (length chars <= String.length (blank_string chars))%nat.
Proof.
  induction 1 as [|c chars Hc _ IH]; [done|].
  cbn [blank_string fold_right]. rewrite string_length_app.
  pose proof (StrWhiteSpaceChar_nonempty c Hc). simpl. 
  fold (blank_string chars). lia.
Qed.

Lemma trim_blank chars :
  Forall (fun c => In c StrWhiteSpaceChar) chars ->
  trim (blank_string chars) = "".
Proof.
  intros H. unfold trim, trim_start.
  by rewrite trim_start_upto_blank by (done || by apply blank_string_length).
Qed.

Lemma StringToNumber_blank chars :
  Forall (fun c => In c StrWhiteSpaceChar) chars ->
  StringToNumber (blank_string chars) = Finite 0.
Proof. intros H. unfold StringToNumber. by rewrite trim_blank. Qed.

Lemma IntegerToString_inj a b : IntegerToString a = IntegerToString b -> a = b.
Proof.
  unfold IntegerToString. intros H.
  apply (f_equal NilEmpty.int_of_string) in H. rewrite !NilEmpty.isi in H.
  injection H as H. apply (f_equal Z.of_int) in H.
  by rewrite !DecimalZ.of_to in H.
Qed.

End Results.

Section GeneratedIdentifiers.

Lemma generated_inj k k' : generated k = generated k' -> k = k'.
Proof.
  unfold generated. by intros H%String.app_inj%IntegerToString_inj.
Qed.

Lemma generated_truthy k : truthy (generated k) = true.
Proof. reflexivity. Qed.

End GeneratedIdentifiers.

(* ===================================================================== *)
(** * The dispatch of the three methods *)
(* ===================================================================== *)

Lemma one_of_In s l : one_of s l = true <-> In s l.
Proof.
  unfold one_of. rewrite existsb_exists. split.
  - intros (x & Hx & ->%String.eqb_eq). done.
  - intros H. exists s. by rewrite String.eqb_refl.
Qed.

Lemma one_of_false_incl s l l' :
  one_of s l = false -> forallb (fun x => one_of x l) l' = true ->
  one_of s l' = false.
Proof.
  intros Hs Hl. destruct (one_of s l') eqn:E; [|done].
  apply one_of_In in E. rewrite forallb_forall in Hl.
  apply Hl in E. congruence.
Qed.

Lemma eqb_false_outside s l x :
  one_of s l = false -> one_of x l = true -> String.eqb s x = false.
Proof.
  intros Hs Hx. destruct (String.eqb s x) eqn:E; [|done].
  apply String.eqb_eq in E. congruence.
Qed.

(** Evaluate the label tests once the attribute is a literal. *)
Ltac eval_labels :=
  repeat match goal with
    | |- context [one_of ?a ?l] =>
        let b := eval vm_compute in (one_of a l) in
        change (one_of a l) with b
    | |- context [String.eqb ?a ?x] =>
        let b := eval vm_compute in (String.eqb a x) in
        change (String.eqb a x) with b
    | |- context [describe ?a] =>
        let b := eval vm_compute in (describe a) in
        change (describe a) with b
    | |- context [BooleanWithTokenAttributes ?a] =>
        let b := eval vm_compute in (BooleanWithTokenAttributes a) in
        change (BooleanWithTokenAttributes a) with b
    | |- context [TokenStringAttributes ?a] =>
        let b := eval vm_compute in (TokenStringAttributes a) in
        change (TokenStringAttributes a) with b
    end; cbv iota beta.

(** Split a membership in a literal list into its cases. *)
Ltac cases_of H :=
  simpl in H;
  repeat (destruct H as [<-|H]); [..|destruct H].

(** Outside the vocabulary every label test fails. *)
Ltac outside H :=
  repeat match goal with
    | |- context [one_of ?a ?l] =>
        rewrite (one_of_false_incl a vocabulary l H eq_refl)
    | |- context [String.eqb ?a ?x] =>
        rewrite (eqb_false_outside a vocabulary x H eq_refl)
    end.

Lemma describe_outside a : one_of a vocabulary = false -> describe a = None.
Proof.
  intros H. unfold describe, BooleanWithTokenAttributes, TokenStringAttributes.
  by outside H.
Qed.

Lemma describe_inside a : In a vocabulary -> describe a <> None.
Proof. intros H. cases_of H; by eval_labels. Qed.

(** The vocabulary is exactly the set of names the registry describes. *)
Lemma describe_vocabulary a : describe a <> None <-> In a vocabulary.
Proof.
  split; [|apply describe_inside].
  intros H. apply one_of_In. destruct (one_of a vocabulary) eqn:E; [done|].
  by apply describe_outside in E.
Qed.

(** [set] by domain. *)
Lemma set_unfold this attribute v :
  set this attribute v =
  let a := toLowerCase attribute in
  match describe a with
  | Some ArbitraryString =>
      match v with
      | VString s => setAttr this a s
      | _ => throw InvalidValue
      end
  | Some SingleReference =>
      match v with
      | VElement _ => let* ref := getId v in setAttr this a ref
      | VString s => setAttr this a s
      | _ => throw InvalidValue
      end
  | Some ReferenceList =>
      match v with
      | VElement _ => let* ref := getId v in setAttr this a ref
      | VArray items | VNodeList items =>
          let* refs := mapM getId items in
          setAttr this a (join " " (filter truthy refs))
      | VString s => setAttr this a s
      | _ => throw InvalidValue
      end
  | Some BooleanOnly => set_boolean this a v
  | Some (BooleanWithTokens tokens) => set_boolean_or_token this a tokens v
  | Some (EnumeratedTokens tokens) => set_token this a tokens v
  | Some Number =>
      match v with
      | VBigInt _ | VNumber _ | VString _ =>
          if isNaN (Number_ v) then throw InvalidValue
          else setAttr this a (NumberToString (Number_ v))
      | _ => throw InvalidValue
      end
  | None => throw InvalidAttribute
  end.
Proof.
  unfold set, describe. cbv zeta. generalize (toLowerCase attribute) as a.
  intros a.
  repeat match goal with
    | |- context [if ?b then _ else _] => destruct b; try reflexivity
    | |- context [match ?o with Some _ => _ | None => _ end] =>
        destruct o; try reflexivity
    end.
Qed.

(** [get] by domain. *)
Lemma get_unfold this attribute st :
  get this attribute st =
  let a := toLowerCase attribute in
  let raw := Dom.getAttribute (elements st) this ("aria-" +:+ a) in
  match describe a with
  | Some (ArbitraryString | SingleReference | ReferenceList) =>
      (Ok (of_attr raw), st)
  | Some BooleanOnly => (Ok (get_boolean raw), st)
  | Some (BooleanWithTokens tokens) =>
      (Ok (get_boolean_or_token tokens raw), st)
  | Some (EnumeratedTokens tokens) => (Ok (get_token tokens raw), st)
  | Some Number =>
      (Ok (if negb (isNaN (Number_ (of_attr raw)))
           then VNumber (Number_ (of_attr raw)) else VNull), st)
  | None => (Throw InvalidAttribute, st)
  end.
Proof.
  unfold get, bind, getAttribute. cbv zeta.
  generalize (toLowerCase attribute) as a. intros a.
  destruct (one_of a vocabulary) eqn:E.
  - apply one_of_In in E. cases_of E; eval_labels; try reflexivity;
      unfold ret; by destruct (negb _).
  - rewrite (describe_outside a E).
    unfold BooleanWithTokenAttributes, TokenStringAttributes. by outside E.
Qed.

(** [unset] by domain: every described attribute is removed. *)
Lemma unset_unfold this attribute :
  unset this attribute =
  let a := toLowerCase attribute in
  match describe a with
  | Some _ => removeAttribute this ("aria-" +:+ a)
  | None => throw InvalidAttribute
  end.
Proof.
  unfold unset. cbv zeta. generalize (toLowerCase attribute) as a. intros a.
  destruct (one_of a vocabulary) eqn:E.
  - apply one_of_In in E. destruct (describe a) eqn:D; [done|].
    by apply describe_inside in E.
  - by rewrite (describe_outside a E).
Qed.


(* ===================================================================== *)
(** * The store under the host operations *)
(* ===================================================================== *)

Section Store.

Lemma attributes_setAttribute d h name v h' :
  Dom.attributes (Dom.setAttribute d h name v !!! h') =
  if decide (h' = h) then <[name := v]> (Dom.attributes (d !!! h))
  else Dom.attributes (d !!! h').
Proof.
  unfold Dom.setAttribute. destruct (decide (h' = h)) as [->|Hne].
  - by rewrite lookup_total_insert_eq.
  - by rewrite lookup_total_insert_ne.
Qed.

Lemma id_setAttribute d h name v h' :
  name <> "id" ->
  Dom.get_id (Dom.setAttribute d h name v) h' = Dom.get_id d h'.
Proof.
  intros Hname. unfold Dom.get_id, Dom.id. rewrite attributes_setAttribute.
  destruct (decide (h' = h)) as [->|Hne]; [|done].
  by rewrite lookup_insert_ne.
Qed.

Lemma attributes_set_id d h v h' key :
  key <> "id" ->
  Dom.attributes (Dom.set_id d h v !!! h') !! key
  = Dom.attributes (d !!! h') !! key.
Proof.
  intros Hkey. unfold Dom.set_id. rewrite attributes_setAttribute.
  destruct (decide (h' = h)) as [->|Hne]; [|done].
  by rewrite lookup_insert_ne.
Qed.

Lemma id_set_id d h v h' :
  Dom.get_id (Dom.set_id d h v) h' =
  if decide (h' = h) then v else Dom.get_id d h'.
Proof.
  unfold Dom.get_id, Dom.id, Dom.set_id. rewrite attributes_setAttribute.
  destruct (decide (h' = h)) as [->|Hne]; [|done].
  by rewrite lookup_insert_eq.
Qed.

Lemma aria_not_id attribute : "aria-" +:+ attribute <> "id".
Proof. intros H. discriminate H. Qed.

Lemma getAttribute_setAttribute d h name v :
  Dom.getAttribute (Dom.setAttribute d h name v) h name = Some v.
Proof.
  unfold Dom.getAttribute. rewrite attributes_setAttribute.
  rewrite decide_True by done. apply lookup_insert_eq.
Qed.

Lemma getAttribute_removeAttribute d h name :
  Dom.getAttribute (Dom.removeAttribute d h name) h name = None.
Proof.
  unfold Dom.getAttribute, Dom.removeAttribute.
  rewrite lookup_total_insert_eq. apply lookup_delete_eq.
Qed.

End Store.

(* ===================================================================== *)
(** * Membership in the label groups *)
(* ===================================================================== *)

Section Groups.

Lemma describe_Number a : In a NumberAttributes -> describe a = Some Number.
Proof. intros H. cases_of H; reflexivity. Qed.

Lemma describe_BooleanCapable a :
  In a BooleanCapableAttributes ->
  (describe a = Some BooleanOnly /\ permitted_tokens a = []) \/
  describe a = Some (BooleanWithTokens (permitted_tokens a)).
Proof. intros H. cases_of H; (by left) || (by right). Qed.

Lemma describe_Reference a :
  In a ReferenceAttributes ->
  describe a = Some SingleReference \/ describe a = Some ReferenceList.
Proof. intros H. cases_of H; (by left) || (by right). Qed.

Lemma describe_IDREFList a :
  In a IDREFListAttributes -> describe a = Some ReferenceList.
Proof. intros H. cases_of H; reflexivity. Qed.

End Groups.

(* ===================================================================== *)
(** * Names outside the vocabulary *)
(* ===================================================================== *)

Section UnknownAttribute.

Variables (this : handle) (attribute : string) (st : state).
Hypothesis Hout : ~ In (toLowerCase attribute) vocabulary.

Lemma describe_unknown : describe (toLowerCase attribute) = None.
Proof.
  destruct (describe (toLowerCase attribute)) eqn:D; [|done].
  exfalso. apply Hout, describe_vocabulary. congruence.
Qed.

Lemma set_unknown v : set this attribute v st = (Throw InvalidAttribute, st).
Proof. rewrite set_unfold. cbv zeta. by rewrite describe_unknown. Qed.

Lemma get_unknown : get this attribute st = (Throw InvalidAttribute, st).
Proof. rewrite get_unfold. cbv zeta. by rewrite describe_unknown. Qed.

Lemma unset_unknown : unset this attribute st = (Throw InvalidAttribute, st).
Proof. rewrite unset_unfold. cbv zeta. by rewrite describe_unknown. Qed.

End UnknownAttribute.

(* ===================================================================== *)
(** * Identifier resolution *)
(* ===================================================================== *)

Section Identifiers.

Lemma extends_refl st : extends st st.
Proof. split; [done|lia|by left]. Qed.

Lemma extends_trans st1 st2 st3 :
  extends st1 st2 -> extends st2 st3 -> extends st1 st3.
Proof.
  intros [A1 C1 I1] [A2 C2 I2]. split.
  - intros h key Hkey. by rewrite A2, A1.
  - lia.
  - intros h. destruct (I2 h) as [E2|(E2 & k & Hk & G2)].
    + rewrite E2. destruct (I1 h) as [E1|(E1 & k & Hk & G1)]; [by left|].
      right. split; [done|]. exists k. split; [lia|done].
    + destruct (I1 h) as [E1|(E1 & k' & Hk' & G1)].
      * right. split; [congruence|]. exists k. split; [lia|done].
      * exfalso. rewrite G1 in E2. discriminate E2.
Qed.

Lemma extends_keeps_id st st' h :
  extends st st' -> id_of st h <> "" -> id_of st' h = id_of st h.
Proof. intros [_ _ I] Hid. by destruct (I h) as [E|[E _]]. Qed.

Lemma truthy_nonempty s : truthy s = true <-> s <> "".
Proof. by destruct s. Qed.

(** [#getId] in one step: an element that carries an identifier keeps it
    and nothing is written; an element without one receives the next
    generated identifier; anything else resolves to the empty string. *)
Lemma getId_run v st :
  getId v st =
  match v with
  | VElement h =>
      if truthy (id_of st h) then (Ok (id_of st h), st)
      else (Ok (generated (idCounter st)),
            {| elements := Dom.set_id (elements st) h (generated (idCounter st));
               idCounter := idCounter st + 1 |})
  | _ => (Ok "", st)
  end.
Proof.
  destruct v; try reflexivity.
  unfold getId, bind, read_id, id_of. simpl.
  destruct (truthy (Dom.get_id (elements st) h)) eqn:E; simpl; [done|].
  rewrite id_set_id, decide_True by done. done.
Qed.

Lemma getId_extends v st :
  exists st', getId v st = (Ok (ref_in st' v), st') /\ extends st st' /\
              (forall h, v = VElement h -> id_of st' h <> "").
Proof.
  rewrite getId_run. destruct v; try by (eexists; split; [done|];
    split; [apply extends_refl|done]).
  destruct (truthy (id_of st h)) eqn:E.
  - exists st. split; [done|]. split; [apply extends_refl|].
    intros ? [= <-]. by apply truthy_nonempty.
  - eexists. split; [|split].
    + f_equal. f_equal. unfold ref_in, id_of. simpl.
      by rewrite id_set_id, decide_True.
    + split; simpl.
      * intros h' key Hkey. unfold attributes_of. simpl.
        by apply attributes_set_id.
      * lia.
      * intros h'. unfold id_of. simpl. rewrite id_set_id.
        destruct (decide (h' = h)) as [->|]; [|by left].
        right. split.
        { fold (id_of st h). by destruct (id_of st h). }
        exists (idCounter st). split; [lia|done].
    + intros ? [= <-]. unfold id_of. simpl.
      rewrite id_set_id, decide_True by done. done.
Qed.

Lemma mapM_cons {A B} (f : A -> M B) a l st :
  mapM f (a :: l) st =
  match f a st with
  | (Ok b, st1) =>
      match mapM f l st1 with
      | (Ok bs, st2) => (Ok (b :: bs), st2)
      | (Throw e, st2) => (Throw e, st2)
      end
  | (Throw e, st1) => (Throw e, st1)
  end.
Proof.
  simpl. unfold bind. destruct (f a st) as [[b|e] st1]; [|done].
  by destruct (mapM f l st1) as [[bs|e] st2].
Qed.

(** Resolving a collection never throws; every item is reported with the
    identifier it has at the end. *)
Lemma mapM_getId_run items :
  forall st, exists st',
    mapM getId items st = (Ok (map (ref_in st') items), st') /\
    extends st st' /\
    Forall (fun h => id_of st' h <> "") (element_handles items).
Proof.
  induction items as [|v items IH]; intros st; simpl.
  - exists st. split; [done|]. split; [apply extends_refl|constructor].
  - destruct (getId_extends v st) as (st1 & R1 & X1 & N1).
    destruct (IH st1) as (st2 & R2 & X2 & F2).
    exists st2. unfold bind. rewrite R1, R2. simpl.
    assert (ref_in st1 v = ref_in st2 v) as ->.
    { destruct v; try done. simpl. symmetry.
      apply extends_keeps_id; [done|]. by apply N1. }
    split; [done|]. split; [by eapply extends_trans|].
    destruct v; try done. constructor; [|done].
    rewrite (extends_keeps_id st1 st2) by eauto. by apply N1.
Qed.

(** [filter(Boolean)] drops exactly the items that are not elements. *)
Lemma filter_truthy_refs st items :
  Forall (fun h => id_of st h <> "") (element_handles items) ->
  filter truthy (map (ref_in st) items) =
  map (id_of st) (element_handles items).
Proof.
  induction items as [|v items IH]; [done|].
  destruct v; simpl; try apply IH.
  intros [Hh Hr]%Forall_cons. rewrite filter_cons.
  apply truthy_nonempty in Hh. rewrite decide_True by by rewrite Hh.
  by rewrite IH.
Qed.

End Identifiers.

(* ===================================================================== *)
(** * Reading back what was written *)
(* ===================================================================== *)

Section ReadBack.

Lemma attributes_written st this key v h :
  attributes_of (written st this key v) h =
  if decide (h = this) then <[key := v]> (attributes_of st this)
  else attributes_of st h.
Proof. apply attributes_setAttribute. Qed.

Lemma id_written st this key v h :
  key <> "id" -> id_of (written st this key v) h = id_of st h.
Proof. apply id_setAttribute. Qed.

Lemma id_written_aria st this attribute v h :
  id_of (written st this (aria attribute) v) h = id_of st h.
Proof. apply id_written, aria_not_id. Qed.

Lemma getAttribute_written st this key v :
  Dom.getAttribute (elements (written st this key v)) this key = Some v.
Proof. apply getAttribute_setAttribute. Qed.

Lemma getAttribute_attributes_of st this key :
  Dom.getAttribute (elements st) this key = attributes_of st this !! key.
Proof. reflexivity. Qed.

(** The tokens of a boolean attribute never spell a boolean. *)
Lemma BooleanWithTokens_not_boolean a tokens :
  BooleanWithTokenAttributes a = Some tokens ->
  one_of "true" tokens = false /\ one_of "false" tokens = false.
Proof.
  unfold BooleanWithTokenAttributes.
  repeat match goal with
    | |- context [if ?b then _ else _] => destruct b
    end; intros [= <-]; done.
Qed.

Lemma describe_BooleanWithTokens a tokens :
  describe a = Some (BooleanWithTokens tokens) ->
  BooleanWithTokenAttributes a = Some tokens.
Proof.
  unfold describe.
  destruct (one_of a ArbitraryStringAttributes); [done|].
  destruct (one_of a IDREFAttributes); [done|].
  destruct (one_of a IDREFListAttributes); [done|].
  destruct (one_of a BooleanOnlyAttributes); [done|].
  destruct (BooleanWithTokenAttributes a); [congruence|].
  destruct (TokenStringAttributes a); [done|].
  by destruct (one_of a NumberAttributes).
Qed.

Lemma describe_Number_iff a d :
  describe a = Some d ->
  one_of a NumberAttributes = match d with Number => true | _ => false end.
Proof.
  intros D.
  assert (In a vocabulary) as H by (apply describe_vocabulary; congruence).
  revert D. cases_of H; by intros [= <-].
Qed.

Lemma one_of_not_boolean s tokens :
  one_of s tokens = true ->
  one_of "true" tokens = false -> one_of "false" tokens = false ->
  String.eqb s "true" = false /\ String.eqb s "false" = false.
Proof.
  intros Hs Ht Hf.
  split; rewrite String.eqb_sym; by apply (eqb_false_outside _ tokens).
Qed.

End ReadBack.

(* ===================================================================== *)
(** * Properties of the codec *)
(* ===================================================================== *)

(** C9, as the specification words it, presupposes a vocabulary of 38
    names.  The switch of [unset] lists 48. *)
Lemma vocabulary_has_not_38_entries : length vocabulary <> 38%nat.
Proof. vm_compute. discriminate. Qed.

(** C9 (amended).  The vocabulary is closed and has 48 pairwise distinct
    entries; for every attribute name whose lowercase form lies outside it,
    each of [set], [get] and [unset] fails at once with [InvalidAttribute]
    and writes nothing. *)
Theorem unknown_attribute_rejected this attribute v st :
  ~ In (toLowerCase attribute) vocabulary ->
  length vocabulary = 48%nat /\ NoDup vocabulary /\
  set this attribute v st = (Throw InvalidAttribute, st) /\
  get this attribute st = (Throw InvalidAttribute, st) /\
  unset this attribute st = (Throw InvalidAttribute, st).
Proof.
  intros H. split; [reflexivity|]. split.
  - apply (bool_decide_unpack _). by vm_compute.
  - auto using set_unknown, get_unknown, unset_unknown.
Qed.

Lemma unknown_attribute_rejected_witness :
  set 0%nat "frobnicate" (VBoolean true) fresh_page
  = (Throw InvalidAttribute, fresh_page).
Proof.
  apply (unknown_attribute_rejected 0%nat "frobnicate" (VBoolean true)).
  intros H. simpl in H. repeat (destruct H as [H|H]; [discriminate H|]). done.
Defined.

(** A name is told by its lowercase form, and U+212A KELVIN SIGN is a
    capital of [k]: with it [set] writes "aria-keyshortcuts". *)
Example kelvin_sign_is_a_capital :
  toLowerCase (utf8 [226; 132; 170]%N +:+ "eyshortcuts") = "keyshortcuts" /\
  set 0%nat (utf8 [226; 132; 170]%N +:+ "eyshortcuts") (VString "Control+K")
    fresh_page
  = (Ok tt, written fresh_page 0%nat "aria-keyshortcuts" "Control+K") /\
  get 0%nat ("chec" +:+ utf8 [226; 132; 170]%N +:+ "ed")
    (written fresh_page 0%nat "aria-checked" "mixed")
  = (Ok (VString "mixed"), written fresh_page 0%nat "aria-checked" "mixed").
Proof. by vm_compute. Qed.

Section BooleanAttributes.

Variables (this : handle) (attribute : string) (st : state).
Hypothesis Hbool : In (toLowerCase attribute) BooleanCapableAttributes.

Lemma not_a_token_of_boolean raw :
  raw = " true" \/ raw = "TRUE" ->
  raw <> "true" /\ raw <> "false" /\
  ~ In raw (permitted_tokens (toLowerCase attribute)).
Proof.
  intros Hraw. split; [by destruct Hraw as [-> | ->]|].
  split; [by destruct Hraw as [-> | ->]|].
  rewrite <- one_of_In. revert Hbool.
  generalize (toLowerCase attribute) as a. intros a H.
  cases_of H; by destruct Hraw as [-> | ->].
Qed.

Lemma get_boolean_capable raw :
  attributes_of st this !! aria attribute = Some raw ->
  get this attribute st =
  (Ok (get_boolean_or_token (permitted_tokens (toLowerCase attribute))
         (Some raw)), st).
Proof.
  intros Hraw. rewrite get_unfold. cbv zeta.
  rewrite getAttribute_attributes_of. fold (aria attribute). rewrite Hraw.
  destruct (describe_BooleanCapable _ Hbool) as [[-> ->]| ->]; [|done].
  unfold get_boolean, get_boolean_or_token. simpl.
  by repeat destruct (String.eqb _ _).
Qed.

End BooleanAttributes.

(** C8.  For every boolean-capable attribute, [set(name)] without a value
    stores the string "true" under "aria-<name>", and [get(name)] then
    returns the boolean [true]. *)
Theorem omitted_value_defaults_to_true this attribute st :
  In (toLowerCase attribute) BooleanCapableAttributes ->
  let st' := written st this (aria attribute) "true" in
  set this attribute VUndefined st = (Ok tt, st') /\
  attributes_of st' this !! aria attribute = Some "true" /\
  get this attribute st' = (Ok (VBoolean true), st').
Proof.
  intros H st'. split; [|split].
  - rewrite set_unfold. cbv zeta.
    by destruct (describe_BooleanCapable _ H) as [[-> _]| ->].
  - apply getAttribute_written.
  - rewrite (get_boolean_capable this attribute st' H "true"); [done|].
    apply getAttribute_written.
Qed.

Lemma omitted_value_defaults_to_true_witness :
  get 0%nat "Expanded" (written fresh_page 0%nat "aria-expanded" "true")
  = (Ok (VBoolean true), written fresh_page 0%nat "aria-expanded" "true").
Proof.
  apply (omitted_value_defaults_to_true 0%nat "Expanded" fresh_page).
  simpl. tauto.
Defined.

(** C5.  Strict read of the boolean-capable attributes: a raw stored string
    that is exactly "true" reads as [true], exactly "false" as [false];
    any other raw string that is none of the attribute's tokens reads as
    [null] and [get] does not throw; " true" and "TRUE" are such strings
    for every one of these attributes. *)
Theorem boolean_strict_read this attribute raw st :
  In (toLowerCase attribute) BooleanCapableAttributes ->
  attributes_of st this !! aria attribute = Some raw ->
  (raw = "true" -> get this attribute st = (Ok (VBoolean true), st)) /\
  (raw = "false" -> get this attribute st = (Ok (VBoolean false), st)) /\
  (raw <> "true" -> raw <> "false" ->
   ~ In raw (permitted_tokens (toLowerCase attribute)) ->
   get this attribute st = (Ok VNull, st)) /\
  (raw = " true" \/ raw = "TRUE" -> get this attribute st = (Ok VNull, st)).
Proof.
  intros H Hraw. rewrite (get_boolean_capable this attribute st H raw Hraw).
  assert (raw <> "true" -> raw <> "false" ->
          ~ In raw (permitted_tokens (toLowerCase attribute)) ->
          get_boolean_or_token (permitted_tokens (toLowerCase attribute))
            (Some raw) = VNull) as Hnull.
  { intros Ht Hf Hn. unfold get_boolean_or_token.
    apply String.eqb_neq in Ht, Hf. rewrite Ht, Hf.
    destruct (one_of raw _) eqn:E; [|done]. by apply one_of_In in E. }
  split; [by intros ->|]. split; [by intros ->|]. split.
  - intros. by rewrite Hnull.
  - intros (Ht & Hf & Hn)%(not_a_token_of_boolean attribute H).
    by rewrite Hnull.
Qed.

Lemma boolean_strict_read_witness :
  get 0%nat "expanded" (written fresh_page 0%nat "aria-expanded" " true")
  = (Ok VNull, written fresh_page 0%nat "aria-expanded" " true").
Proof.
  apply (boolean_strict_read 0%nat "expanded" " true"
           (written fresh_page 0%nat "aria-expanded" " true")).
  - simpl. tauto.
  - reflexivity.
  - by left.
Defined.

Section NumberAttribute.

Variables (this : handle) (attribute : string) (st : state).
Hypothesis Hnum : In (toLowerCase attribute) NumberAttributes.

Lemma set_number v :
  set this attribute v st =
  match v with
  | VBigInt _ | VNumber _ | VString _ =>
      if isNaN (Number_ v) then (Throw InvalidValue, st)
      else (Ok tt, written st this (aria attribute) (NumberToString (Number_ v)))
  | _ => (Throw InvalidValue, st)
  end.
Proof.
  rewrite set_unfold. cbv zeta. rewrite (describe_Number _ Hnum).
  destruct v; try reflexivity; by destruct (isNaN _).
Qed.

Lemma get_number :
  get this attribute st =
  let num := Number_ (of_attr (attributes_of st this !! aria attribute)) in
  (Ok (if isNaN num then VNull else VNumber num), st).
Proof.
  rewrite get_unfold. cbv zeta. rewrite (describe_Number _ Hnum).
  rewrite getAttribute_attributes_of. fold (aria attribute).
  by destruct (isNaN _).
Qed.

End NumberAttribute.

(** C10.  For every Number attribute, an empty or white-space-only string
    is the number 0: [set(name, s)] succeeds and stores "0", and [get(name)]
    on such a raw stored string returns 0, not [null].  White space is
    what [Number] skips around a literal: any sequence of the characters
    of [StrWhiteSpaceChar] (the ASCII ones, U+00A0, U+FEFF, the line and
    paragraph separators and the other space characters). *)
Theorem whitespace_string_is_zero this attribute chars st :
  In (toLowerCase attribute) NumberAttributes ->
  Forall (fun c => In c StrWhiteSpaceChar) chars ->
  set this attribute (VString (blank_string chars)) st
  = (Ok tt, written st this (aria attribute) "0") /\
  (attributes_of st this !! aria attribute = Some (blank_string chars) ->
   get this attribute st = (Ok (VNumber (Finite 0)), st)).
Proof.
  intros H Hs. split.
  - rewrite set_number by done. cbn [Number_].
    by rewrite StringToNumber_blank.
  - intros Hraw. rewrite get_number by done. cbv zeta. rewrite Hraw.
    cbn [of_attr Number_]. by rewrite StringToNumber_blank.
Qed.

Lemma whitespace_string_is_zero_witness :
  set 0%nat "colcount"
    (VString (blank_string [" "; utf8 [9]%N; utf8 [194; 160]%N;
                            utf8 [226; 128; 168]%N; utf8 [239; 187; 191]%N]))
    fresh_page
  = (Ok tt, written fresh_page 0%nat "aria-colcount" "0").
Proof.
  apply (whitespace_string_is_zero 0%nat "colcount"
           [" "; utf8 [9]%N; utf8 [194; 160]%N;
            utf8 [226; 128; 168]%N; utf8 [239; 187; 191]%N] fresh_page).
  - simpl. tauto.
  - repeat (constructor; [vm_compute; tauto|]). constructor.
Defined.

(** One space alone, and the empty string. *)
Example set_space_stores_zero :
  set 0%nat "valuenow" (VString " ") fresh_page
  = (Ok tt, written fresh_page 0%nat "aria-valuenow" "0") /\
  set 0%nat "valuenow" (VString "") fresh_page
  = (Ok tt, written fresh_page 0%nat "aria-valuenow" "0").
Proof. split; reflexivity. Qed.

(** U+200B ZERO WIDTH SPACE is no white space of the language: a string
    made of it is no number. *)
Example set_zero_width_space_throws :
  set 0%nat "valuenow" (VString (utf8 [226; 128; 139]%N)) fresh_page
  = (Throw InvalidValue, fresh_page).
Proof. reflexivity. Qed.

(** C1 (what the code does where the claim fails).  For every Number
    attribute, when the store holds no value under "aria-<name>", [get(name)]
    returns the number 0: [Number(null)] is 0, not [NaN], so the final
    [return null] is not reached. *)
Theorem get_absent_number_is_zero this attribute st :
  In (toLowerCase attribute) NumberAttributes ->
  attributes_of st this !! aria attribute = None ->
  get this attribute st = (Ok (VNumber (Finite 0)), st) /\
  get this attribute st <> (Ok VNull, st).
Proof.
  intros H Habs. rewrite get_number by done. cbv zeta. rewrite Habs. done.
Qed.

Lemma get_absent_number_is_zero_witness :
  get 0%nat "colcount" fresh_page = (Ok (VNumber (Finite 0)), fresh_page).
Proof.
  apply (get_absent_number_is_zero 0%nat "colcount" fresh_page).
  - simpl. tauto.
  - reflexivity.
Defined.

(** The same right after [unset]. *)
Example get_after_unset_number :
  (do unset 0%nat "colcount" in get 0%nat "colcount")
    (written fresh_page 0%nat "aria-colcount" "3")
  = (Ok (VNumber (Finite 0)),
     snd (unset 0%nat "colcount" (written fresh_page 0%nat "aria-colcount" "3"))).
Proof. reflexivity. Qed.

(** In every other domain an absent attribute reads as [null]. *)
Lemma get_absent_not_number this attribute d st :
  describe (toLowerCase attribute) = Some d -> d <> Number ->
  attributes_of st this !! aria attribute = None ->
  get this attribute st = (Ok VNull, st).
Proof.
  intros D Hd Habs. rewrite get_unfold. cbv zeta. rewrite D.
  rewrite getAttribute_attributes_of. fold (aria attribute). rewrite Habs.
  by destruct d.
Qed.

(** [unset] removes the attribute, whatever was there. *)
Lemma unset_removes this attribute st :
  In (toLowerCase attribute) vocabulary ->
  exists st', unset this attribute st = (Ok tt, st') /\
              attributes_of st' this !! aria attribute = None.
Proof.
  intros H%describe_vocabulary. rewrite unset_unfold. cbv zeta.
  destruct (describe (toLowerCase attribute)); [|done].
  eexists. split; [reflexivity|]. apply getAttribute_removeAttribute.
Qed.

(** C2, as the specification words it, fails for an absent value:
    [set('activedescendant')] throws. *)
Lemma set_reference_absent_is_not_no_op :
  ~ no_op (set 0%nat "activedescendant" VUndefined) fresh_page.
Proof. unfold no_op. discriminate. Qed.

(** C2 (amended).  For every SingleReference and every ReferenceList
    attribute, [set(name)] with an absent value throws [InvalidValue] and
    leaves the state untouched. *)
Theorem set_reference_absent_throws this attribute st :
  In (toLowerCase attribute) ReferenceAttributes ->
  set this attribute VUndefined st = (Throw InvalidValue, st).
Proof.
  intros H. rewrite set_unfold. cbv zeta.
  by destruct (describe_Reference _ H) as [-> | ->].
Qed.

Lemma set_reference_absent_throws_witness :
  set 0%nat "controls" VUndefined fresh_page = (Throw InvalidValue, fresh_page).
Proof.
  apply (set_reference_absent_throws 0%nat "controls" fresh_page).
  simpl. tauto.
Defined.

(** What the reference branches do with [null]: the same [throw]. *)
Lemma set_reference_null_throws this attribute st :
  In (toLowerCase attribute) ReferenceAttributes ->
  set this attribute VNull st = (Throw InvalidValue, st).
Proof.
  intros H. rewrite set_unfold. cbv zeta.
  by destruct (describe_Reference _ H) as [-> | ->].
Qed.

(* ===================================================================== *)
(** * Fresh identifiers *)
(* ===================================================================== *)

Section FreshIdentifiers.

Lemma generated_from_range x k n :
  x ∈ generated_from k n ->
  exists j, k <= j < k + Z.of_nat n /\ x = generated j.
Proof.
  revert k. induction n as [|n IH]; intros k; simpl.
  - by intros ?%elem_of_nil.
  - intros [->|Hx]%elem_of_cons.
    + exists k. split; [lia|done].
    + destruct (IH _ Hx) as (j & Hj & ->). exists j. split; [lia|done].
Qed.

Lemma generated_from_NoDup k n : NoDup (generated_from k n).
Proof.
  revert k. induction n as [|n IH]; intros k; simpl; constructor; [|done].
  intros (j & Hj & E%generated_inj)%generated_from_range. lia.
Qed.

Lemma generated_from_length k n : length (generated_from k n) = n.
Proof. revert k. induction n; intros k; simpl; auto. Qed.

Lemma generated_from_truthy k n :
  filter truthy (generated_from k n) = generated_from k n.
Proof.
  revert k. induction n as [|n IH]; intros k; simpl; [done|].
  rewrite filter_cons, decide_True by done. by rewrite IH.
Qed.

(** Resolving pairwise distinct handles that carry no identifier hands out
    the identifiers of consecutive counter values, in order. *)
Lemma resolve_fresh hs :
  forall st,
    NoDup hs -> Forall (fun h => id_of st h = "") hs ->
    exists st',
      resolve hs st = (Ok (generated_from (idCounter st) (length hs)), st') /\
      extends st st' /\
      idCounter st' = idCounter st + Z.of_nat (length hs) /\
      map (id_of st') hs = generated_from (idCounter st) (length hs).
Proof.
  unfold resolve.
  induction hs as [|h hs IH]; intros st Hnd Hno.
  - exists st. simpl. split; [done|]. split; [apply extends_refl|].
    split; [lia|done].
  - apply NoDup_cons in Hnd as [Hh Hnd]. apply Forall_cons in Hno as [Hid Hno].
    pose (st1 := {| elements := Dom.set_id (elements st) h
                                  (generated (idCounter st));
                    idCounter := idCounter st + 1 |}).
    assert (getId (VElement h) st = (Ok (generated (idCounter st)), st1))
      as R1 by (by rewrite getId_run, Hid).
    assert (extends st st1) as X1.
    { destruct (getId_extends (VElement h) st) as (st1' & R & X & _).
      rewrite R1 in R. by injection R as _ <-. }
    assert (id_of st1 h = generated (idCounter st)) as Hh1.
    { unfold id_of, st1. simpl. by rewrite id_set_id, decide_True. }
    destruct (IH st1 Hnd) as (st' & R & X & C & Hids).
    { rewrite Forall_forall in Hno |- *. intros h' Hin.
      unfold id_of, st1. simpl. rewrite id_set_id.
      rewrite decide_False; [by apply Hno|]. by intros ->. }
    exists st'. cbn [map]. rewrite mapM_cons, R1, R. simpl.
    split; [done|]. split; [by eapply extends_trans|].
    split; [rewrite C; simpl; lia|]. f_equal; [|done].
    rewrite (extends_keeps_id st1 st') by (by rewrite ?Hh1). done.
Qed.

End FreshIdentifiers.

(** C6.  Identifier resolution is unique and idempotent.
    - Resolving N pairwise distinct handles that carry no identifier yields
      N pairwise distinct generated identifiers (those of the N consecutive
      counter values), assigns them to the handles and advances the counter
      by N.
    - The counter never goes back, [#generateId] advances it by one, and
      distinct counter values give distinct identifiers: none is reused.
    - A handle that carries a non-empty identifier resolves to it and
      nothing is written.
    - Resolving any handle twice yields the same identifier both times. *)
Theorem identifier_resolution :
  (forall st hs,
     NoDup hs -> Forall (fun h => id_of st h = "") hs ->
     exists ids st',
       resolve hs st = (Ok ids, st') /\
       ids = generated_from (idCounter st) (length hs) /\
       length ids = length hs /\ NoDup ids /\
       map (id_of st') hs = ids /\
       idCounter st' = idCounter st + Z.of_nat (length hs)) /\
  (forall v st, idCounter st <= idCounter (snd (getId v st))) /\
  (forall st, idCounter (snd (generateId st)) = idCounter st + 1) /\
  (forall k k', k <> k' -> generated k <> generated k') /\
  (forall st h,
     id_of st h <> "" -> getId (VElement h) st = (Ok (id_of st h), st)) /\
  (forall st h, exists i st1,
     getId (VElement h) st = (Ok i, st1) /\
     getId (VElement h) st1 = (Ok i, st1)).
Proof.
  repeat split.
  - intros st hs Hnd Hno.
    destruct (resolve_fresh hs st Hnd Hno) as (st' & R & _ & C & Hids).
    exists (generated_from (idCounter st) (length hs)), st'.
    split; [done|]. split; [done|].
    split; [apply generated_from_length|].
    split; [apply generated_from_NoDup|]. done.
  - intros v st. destruct (getId_extends v st) as (st' & -> & [_ C _] & _).
    done.
  - intros k k' Hk E%generated_inj. done.
  - intros st h Hid%truthy_nonempty. by rewrite getId_run, Hid.
  - intros st h. destruct (getId_extends (VElement h) st) as (st1 & R & _ & N).
    exists (id_of st1 h), st1. split; [done|].
    rewrite getId_run.
    by rewrite (proj2 (truthy_nonempty _) (N h eq_refl)).
Qed.

Lemma identifier_resolution_witness :
  fst (resolve [1; 2; 3]%nat fresh_page)
  = Ok ["easy-aria-id-1"; "easy-aria-id-2"; "easy-aria-id-3"] /\
  getId (VElement 7%nat)
    {| elements := Dom.set_id ∅ 7%nat "btn"; idCounter := 1 |}
  = (Ok "btn", {| elements := Dom.set_id ∅ 7%nat "btn"; idCounter := 1 |}).
Proof.
  destruct identifier_resolution as (Hfresh & _ & _ & _ & Hkeep & _).
  split.
  - destruct (Hfresh fresh_page [1; 2; 3]%nat) as (ids & st' & R & -> & _).
    + apply (bool_decide_unpack _). by vm_compute.
    + repeat constructor.
    + by rewrite R.
  - refine (Hkeep {| elements := Dom.set_id ∅ 7%nat "btn"; idCounter := 1 |}
              7%nat _).
    vm_compute. discriminate.
Defined.

(** C7.  For every ReferenceList attribute, [set(name, collection)] with an
    array or a NodeList resolves the items in input order: elements keep the
    identifier they carry or receive a fresh one, items that are not
    elements are dropped, and the identifiers of the element items are
    stored joined by one space, in input order; [get(name)] returns that
    string.  With pairwise distinct handles that carry no identifier, the
    stored identifiers are the fresh ones of consecutive counter values. *)
Theorem set_reference_list this attribute st :
  In (toLowerCase attribute) IDREFListAttributes ->
  (forall items, exists st1,
     let refs := join " " (map (id_of st1) (element_handles items)) in
     let st' := written st1 this (aria attribute) refs in
     extends st st1 /\
     Forall (fun h => id_of st1 h <> "") (element_handles items) /\
     set this attribute (VArray items) st = (Ok tt, st') /\
     set this attribute (VNodeList items) st = (Ok tt, st') /\
     attributes_of st' this !! aria attribute = Some refs /\
     get this attribute st' = (Ok (VString refs), st')) /\
  (forall hs,
     NoDup hs -> Forall (fun h => id_of st h = "") hs ->
     exists st',
       set this attribute (VArray (map VElement hs)) st = (Ok tt, st') /\
       map (id_of st') hs = generated_from (idCounter st) (length hs) /\
       get this attribute st'
       = (Ok (VString (join " " (generated_from (idCounter st) (length hs)))),
          st')).
Proof.
  intros H. pose proof (describe_IDREFList _ H) as D. split.
  - intros items. destruct (mapM_getId_run items st) as (st1 & R & X & F).
    exists st1. cbv zeta. split; [done|]. split; [done|].
    rewrite !set_unfold, get_unfold. cbv zeta. rewrite D.
    unfold bind. rewrite R. rewrite filter_truthy_refs by done.
    fold (aria attribute).
    rewrite (getAttribute_written st1 this (aria attribute)).
    split; [done|]. split; [done|]. split; [|done].
    apply getAttribute_written.
  - intros hs Hnd Hno.
    destruct (resolve_fresh hs st Hnd Hno) as (st1 & R & X & C & Hids).
    exists (written st1 this (aria attribute)
              (join " " (generated_from (idCounter st) (length hs)))).
    rewrite set_unfold, get_unfold. cbv zeta. rewrite D.
    unfold bind. unfold resolve in R. rewrite R.
    rewrite generated_from_truthy. fold (aria attribute).
    split; [reflexivity|]. split.
    + rewrite <- Hids. apply map_ext. intros h. apply id_written_aria.
    + by rewrite (getAttribute_written st1 this (aria attribute)).
Qed.

Lemma set_reference_list_witness :
  fst ((do set 0%nat "owns"
             (VArray [VElement 1%nat; VElement 2%nat; VElement 3%nat]) in
        get 0%nat "owns") fresh_page)
  = Ok (VString "easy-aria-id-1 easy-aria-id-2 easy-aria-id-3").
Proof.
  destruct (set_reference_list 0%nat "owns" fresh_page) as [_ Hfresh].
  - simpl. tauto.
  - destruct (Hfresh [1; 2; 3]%nat) as (st' & S & _ & G).
    + apply (bool_decide_unpack _). by vm_compute.
    + repeat constructor.
    + unfold bind. simpl in S. rewrite S, G. reflexivity.
Defined.

(* ===================================================================== *)
(** * Writing, then reading *)
(* ===================================================================== *)

Section SetThenGet.

Variables (this : handle) (attribute : string).

(** Reading an attribute whose raw string [s] was just written. *)
Lemma get_written d st s :
  describe (toLowerCase attribute) = Some d ->
  get this attribute (written st this (aria attribute) s) =
  (Ok (match d with
       | ArbitraryString | SingleReference | ReferenceList => VString s
       | BooleanOnly => get_boolean (Some s)
       | BooleanWithTokens tokens => get_boolean_or_token tokens (Some s)
       | EnumeratedTokens tokens => get_token tokens (Some s)
       | Number => if isNaN (StringToNumber s) then VNull
                   else VNumber (StringToNumber s)
       end), written st this (aria attribute) s).
Proof.
  intros D. rewrite get_unfold. cbv zeta. rewrite D. fold (aria attribute).
  rewrite (getAttribute_written st this (aria attribute)).
  destruct d; try reflexivity. simpl. by destruct (isNaN _).
Qed.

(** Either [set] throws and the state is the one it started from, or it
    resolves identifiers (reaching [st1]), writes one raw string [s] under
    "aria-<name>", and [get] then reads the canonical form of the value. *)
Lemma set_cases v st :
  (exists e, set this attribute v st = (Throw e, st)) \/
  (exists st1 s,
     let st' := written st1 this (aria attribute) s in
     extends st st1 /\
     set this attribute v st = (Ok tt, st') /\
     (well_formed v ->
      get this attribute st' = (Ok (canonical st' attribute v), st'))).
Proof.
  rewrite set_unfold. cbv zeta.
  destruct (describe (toLowerCase attribute)) as [d|] eqn:D;
    [|left; by eexists].
  unfold canonical. rewrite (describe_Number_iff _ _ D).
  destruct d.
  - (* arbitrary string *)
    destruct v; try (left; by eexists).
    right. exists st, s. split; [apply extends_refl|]. split; [done|].
    by intros _; rewrite (get_written _ _ _ D).
  - (* single reference *)
    destruct v; try (left; by eexists).
    + right. exists st, s. split; [apply extends_refl|]. split; [done|].
      by intros _; rewrite (get_written _ _ _ D).
    + destruct (getId_extends (VElement h) st) as (st1 & R & X & _).
      right. exists st1, (id_of st1 h). split; [done|].
      unfold bind. rewrite R. split; [done|].
      by intros _; rewrite (get_written _ _ _ D), id_written_aria.
  - (* reference list *)
    destruct v; try (left; by eexists).
    + right. exists st, s. split; [apply extends_refl|]. split; [done|].
      by intros _; rewrite (get_written _ _ _ D).
    + destruct (getId_extends (VElement h) st) as (st1 & R & X & _).
      right. exists st1, (id_of st1 h). split; [done|].
      unfold bind. rewrite R. split; [done|].
      by intros _; rewrite (get_written _ _ _ D), id_written_aria.
    + destruct (mapM_getId_run items st) as (st1 & R & X & F).
      right. exists st1, (join " " (map (id_of st1) (element_handles items))).
      split; [done|]. unfold bind. rewrite R, filter_truthy_refs by done.
      split; [done|]. intros _; rewrite (get_written _ _ _ D). do 4 f_equal.
      apply map_ext. intros h. by rewrite id_written_aria.
    + destruct (mapM_getId_run items st) as (st1 & R & X & F).
      right. exists st1, (join " " (map (id_of st1) (element_handles items))).
      split; [done|]. unfold bind. rewrite R, filter_truthy_refs by done.
      split; [done|]. intros _; rewrite (get_written _ _ _ D). do 4 f_equal.
      apply map_ext. intros h. by rewrite id_written_aria.
  - (* boolean only *)
    destruct v as [| |b| | | | | | |]; try (left; by eexists).
    + right. exists st, "true". split; [apply extends_refl|].
      split; [done|]. by intros _; rewrite (get_written _ _ _ D).
    + right. exists st, (BooleanToString b). split; [apply extends_refl|].
      split; [done|]. intros _; rewrite (get_written _ _ _ D). by destruct b.
  - (* boolean or token *)
    destruct v as [| |b| | |s| | | |]; try (left; by eexists).
    + right. exists st, "true". split; [apply extends_refl|].
      split; [done|]. by intros _; rewrite (get_written _ _ _ D).
    + right. exists st, (BooleanToString b). split; [apply extends_refl|].
      split; [done|]. intros _; rewrite (get_written _ _ _ D). by destruct b.
    + simpl. destruct (one_of s tokens) eqn:E; [|left; by eexists].
      right. exists st, s. split; [apply extends_refl|]. split; [done|].
      intros _. rewrite (get_written _ _ _ D). unfold get_boolean_or_token.
      destruct (BooleanWithTokens_not_boolean _ _
                  (describe_BooleanWithTokens _ _ D)) as [Ht Hf].
      destruct (one_of_not_boolean _ _ E Ht Hf) as [-> ->]. by rewrite E.
  - (* token *)
    destruct v as [| | | | |s| | | |]; try (left; by eexists).
    simpl. destruct (one_of s tokens) eqn:E; [|left; by eexists].
    right. exists st, s. split; [apply extends_refl|]. split; [done|].
    intros _; rewrite (get_written _ _ _ D). simpl. by rewrite E.
  - (* number *)
    assert (forall n, is_double n = true -> isNaN n = false ->
              get this attribute
                (written st this (aria attribute) (NumberToString n))
              = (Ok (VNumber n),
                 written st this (aria attribute) (NumberToString n))) as G.
    { intros n Hn E.
      rewrite (get_written _ _ _ D), StringToNumber_NumberToString by done.
      by rewrite E. }
    destruct v as [| | |n|z|s| | | |]; try (left; by eexists);
      (destruct (isNaN (Number_ _)) eqn:E; [left; by eexists|]);
      right; exists st; eexists; (split; [apply extends_refl|]);
      (split; [reflexivity|]); intros W; (apply G; [|done]).
    + exact W.
    + apply round_ratio_is_double; lia.
    + apply StringToNumber_is_double.
Qed.

End SetThenGet.

Section Doubles.

(** An integer that is a double is the double nearest to it. *)
Lemma round_ratio_integer z :
  is_double (Finite z) = true -> round_ratio (z <? 0) (Z.abs z) 1 = Finite z.
Proof.
  intros Hz. destruct z as [|p|p].
  - by apply round_ratio_zero.
  - destruct (is_double_exact false p 0 Hz)
      as (M & e & HM & He & Hmax & Hex & Hof).
    change (signed false (Z.pos p)) with (Z.pos p) in Hof.
    rewrite <- Hof. rewrite Z.pow_0_r in Hex. by apply round_ratio_exact.
  - destruct (is_double_exact true p 0 Hz)
      as (M & e & HM & He & Hmax & Hex & Hof).
    change (signed true (Z.pos p)) with (Z.neg p) in Hof.
    rewrite <- Hof. rewrite Z.pow_0_r in Hex. by apply round_ratio_exact.
Qed.

(** The integers up to [2^53] in magnitude are doubles. *)
Lemma is_double_safe_integer z : Z.abs z <= 2 ^ 53 -> is_double (Finite z) = true.
Proof.
  intros Hz.
  assert (Finite z = of_scaled (z <? 0) (Z.abs z) 0) as ->.
  { destruct z as [|p|p]; [done|..]; unfold of_scaled;
      cbn [Z.abs]; change (0 <=? 0) with true; cbv iota;
      by rewrite Z.pow_0_r, Z.mul_1_r. }
  apply is_double_of_scaled; [lia|lia|].
  apply Z.le_lt_trans with (2 ^ 53 * 2 ^ (0 + 1074)).
  - apply Z.mul_le_mono_nonneg_r; [by apply Z.pow_nonneg|done].
  - by rewrite <- Z.pow_add_r.
Qed.

Lemma NonDecimalIntegerLiteral_numeric s :
  all_chars is_numeric_char s = true -> NonDecimalIntegerLiteral s = None.
Proof.
  destruct s as [|z [|c [|c' r]]]; try done. simpl.
  intros [_ [Hc _]%andb_true_iff]%andb_true_iff.
  destruct (Ascii.eqb z "0"); [|done].
  assert (radix_of c = None) as ->; [|done].
  clear -Hc. destruct c as [[] [] [] [] [] [] [] []]; try discriminate; reflexivity.
Qed.

(** The decimal digits of an integer that is a double denote it. *)
Lemma StringToNumber_IntegerToString z :
  is_double (Finite z) = true -> StringToNumber (IntegerToString z) = Finite z.
Proof.
  intros Hz.
  assert (forall p, is_double (Finite (Z.pos p)) = true ->
            StrUnsignedDecimalLiteral (IntegerToString (Z.pos p))
            = Finite (Z.pos p)) as Hpos.
  { intros p Hp.
    rewrite <- (string_app_nil (IntegerToString (Z.pos p))).
    rewrite StrUnsignedDecimalLiteral_integer;
      [|by apply IntegerToString_digits|by apply IntegerToString_nonempty|done].
    cbn [ExponentPart]. rewrite digits_value_IntegerToString by done.
    unfold decimal_to_double. change (0 <=? 0 - 0) with true. cbv iota.
    change (0 - 0) with 0. rewrite Z.pow_0_r, Z.mul_1_r.
    apply (round_ratio_integer (Z.pos p) Hp). }
  destruct z as [|p|p]; [by vm_compute|..].
  - pose proof (IntegerToString_digits (Z.pos p) ltac:(done)) as Hd.
    pose proof (IntegerToString_nonempty (Z.pos p) ltac:(done)) as Hne.
    specialize (Hpos p Hz).
    destruct (IntegerToString (Z.pos p)) as [|c r] eqn:E; [done|].
    pose proof Hd as [Hc _]%andb_true_iff.
    assert (all_chars is_numeric_char (String c r) = true) as Hnum
      by (revert Hd; apply all_chars_impl, is_digit_numeric).
    unfold StringToNumber. rewrite trim_numeric by done.
    rewrite NonDecimalIntegerLiteral_numeric by done.
    assert (Ascii.eqb c "+" = false) as ->
      by (destruct (Ascii.eqb_spec c "+") as [->|]; done).
    assert (Ascii.eqb c "-" = false) as ->
      by (destruct (Ascii.eqb_spec c "-") as [->|]; done).
    done.
  - change (IntegerToString (Z.neg p))
      with (String "-" (IntegerToString (Z.pos p))).
    pose proof (IntegerToString_digits (Z.pos p) ltac:(done)) as Hd.
    assert (all_chars is_numeric_char
              (String "-" (IntegerToString (Z.pos p))) = true) as Hnum.
    { cbn [all_chars]. change (is_numeric_char "-") with true.
      revert Hd. apply all_chars_impl, is_digit_numeric. }
    unfold StringToNumber. rewrite trim_numeric by done.
    rewrite NonDecimalIntegerLiteral_numeric by done.
    change (Ascii.eqb "-" "+") with false. change (Ascii.eqb "-" "-") with true.
    cbv iota. by rewrite (Hpos p Hz).
Qed.

Lemma Number_is_double v : well_formed v -> is_double (Number_ v) = true.
Proof.
  destruct v as [| |[]|n|z|s| | | |]; try done; intros _.
  - apply round_ratio_is_double; lia.
  - apply StringToNumber_is_double.
Qed.

End Doubles.

(** C3, as the specification words it, fails for the values that are no
    doubles: [set('valuemax', 9007199254740993n)] is accepted, and
    [get('valuemax')] then returns 9007199254740992, which is not the
    number supplied.  The same happens with the string of these digits. *)
Lemma get_after_set_rounds :
  let st := snd (set 0%nat "valuemax" (VBigInt 9007199254740993) fresh_page) in
  set 0%nat "valuemax" (VBigInt 9007199254740993) fresh_page = (Ok tt, st) /\
  get 0%nat "valuemax" st = (Ok (VNumber (Finite 9007199254740992)), st) /\
  set 0%nat "valuemax" (VString "9007199254740993") fresh_page = (Ok tt, st) /\
  number_equals (Finite 9007199254740992) (Finite 9007199254740993) = false.
Proof. by vm_compute. Qed.

(** C3 (amended).  Round trip: whenever [set(name, v)] returns, [get(name)]
    right after it returns the canonical form of [v].  For a Number
    attribute that is [Number(v)]: a number comes back equal to the number
    supplied; a bigint or a numeric string comes back as the double
    nearest to the value it denotes, which is that value when it is a
    double (every integer up to [2^53] in magnitude is; so the decimal
    digits of such an integer come back as the integer), and the string is
    stored restringified.  A boolean or a token comes back exactly as
    supplied.  [set('colcount', '007')] stores "7" and [get('colcount')]
    returns 7. *)
Theorem get_after_set this attribute v st st' :
  well_formed v ->
  set this attribute v st = (Ok tt, st') ->
  get this attribute st' = (Ok (canonical st' attribute v), st') /\
  (forall n, v = VNumber n ->
     get this attribute st' = (Ok (VNumber n), st')) /\
  (forall z, v = VBigInt z ->
     get this attribute st'
     = (Ok (VNumber (round_ratio (z <? 0) (Z.abs z) 1)), st') /\
     (is_double (Finite z) = true ->
      get this attribute st' = (Ok (VNumber (Finite z)), st'))) /\
  (forall s, v = VString s -> In (toLowerCase attribute) NumberAttributes ->
     attributes_of st' this !! aria attribute
     = Some (NumberToString (StringToNumber s)) /\
     get this attribute st' = (Ok (VNumber (StringToNumber s)), st')) /\
  (forall z, v = VString (IntegerToString z) ->
     In (toLowerCase attribute) NumberAttributes ->
     is_double (Finite z) = true ->
     get this attribute st' = (Ok (VNumber (Finite z)), st')) /\
  (forall b, v = VBoolean b ->
     get this attribute st' = (Ok (VBoolean b), st')) /\
  (forall s, v = VString s -> ~ In (toLowerCase attribute) NumberAttributes ->
     get this attribute st' = (Ok (VString s), st')) /\
  set this "colcount" (VString "007") st
  = (Ok tt, written st this "aria-colcount" "7") /\
  get this "colcount" (written st this "aria-colcount" "7")
  = (Ok (VNumber (Finite 7)), written st this "aria-colcount" "7").
Proof.
  intros Hv Hset.
  assert (get this attribute st' = (Ok (canonical st' attribute v), st'))
    as Hget.
  { destruct (set_cases this attribute v st)
      as [[e E]|(st1 & s & _ & E & G)]; rewrite E in Hset; [done|].
    injection Hset as <-. by apply G. }
  split; [done|]. rewrite Hget. unfold canonical.
  split; [|split; [|split; [|split; [|split; [|split; [|split]]]]]].
  - intros n ->. by destruct (one_of _ NumberAttributes).
  - intros z ->.
    assert (one_of (toLowerCase attribute) NumberAttributes = true) as ->.
    { destruct (one_of _ NumberAttributes) eqn:E; [done|]. exfalso.
      rewrite set_unfold in Hset. cbv zeta in Hset.
      destruct (describe (toLowerCase attribute)) as [d|] eqn:D; [|done].
      rewrite (describe_Number_iff _ _ D) in E. by destruct d. }
    split; [done|]. intros Hz. cbn [Number_]. by rewrite round_ratio_integer.
  - intros s -> Hnum. rewrite (proj2 (one_of_In _ _) Hnum). split; [|done].
    rewrite set_number in Hset by done.
    destruct (isNaN _); [done|]. injection Hset as <-.
    apply getAttribute_written.
  - intros z -> Hnum Hz. rewrite (proj2 (one_of_In _ _) Hnum). cbn [Number_].
    by rewrite StringToNumber_IntegerToString.
  - intros b ->. destruct (one_of _ NumberAttributes) eqn:E; [|done].
    apply one_of_In in E. by rewrite set_number in Hset.
  - intros s -> Hnum. destruct (one_of _ NumberAttributes) eqn:E; [|done].
    by apply one_of_In in E.
  - rewrite (set_number this "colcount" st) by (simpl; tauto). cbn [Number_].
    replace (StringToNumber "007") with (Finite 7) by (by vm_compute).
    by replace (NumberToString (Finite 7)) with "7" by (by vm_compute).
  - pose proof (get_written this "colcount" Number st "7" eq_refl) as G.
    replace (StringToNumber "7") with (Finite 7) in G by (by vm_compute).
    exact G.
Qed.

Lemma get_after_set_witness :
  get 0%nat "posinset" (written fresh_page 0%nat "aria-posinset" "32")
  = (Ok (VNumber (Finite 32)), written fresh_page 0%nat "aria-posinset" "32").
Proof.
  refine (proj1 (proj2 (get_after_set 0%nat "posinset" (VNumber (Finite 32))
                          fresh_page _ _ _)) (Finite 32) eq_refl).
  - vm_compute. reflexivity.
  - vm_compute. reflexivity.
Defined.

(** Fractions, exponents and radix prefixes: what is stored is the number
    restringified, and [get] returns the number. *)
Example get_after_set_fraction :
  set 0%nat "valuenow" (VString " 2.50 ") fresh_page
  = (Ok tt, written fresh_page 0%nat "aria-valuenow" "2.5") /\
  get 0%nat "valuenow" (written fresh_page 0%nat "aria-valuenow" "2.5")
  = (Ok (VNumber (Double 5 1)), written fresh_page 0%nat "aria-valuenow" "2.5") /\
  set 0%nat "valuemax" (VString "1e21") fresh_page
  = (Ok tt, written fresh_page 0%nat "aria-valuemax" "1e+21") /\
  get 0%nat "valuemax" (written fresh_page 0%nat "aria-valuemax" "1e+21")
  = (Ok (VNumber (Finite (10 ^ 21))),
     written fresh_page 0%nat "aria-valuemax" "1e+21") /\
  set 0%nat "level" (VString "0x10") fresh_page
  = (Ok tt, written fresh_page 0%nat "aria-level" "16") /\
  set 0%nat "valuenow" (VNumber (Double 1 1)) fresh_page
  = (Ok tt, written fresh_page 0%nat "aria-valuenow" "0.5") /\
  set 0%nat "valuenow" (VString "1.5px") fresh_page
  = (Throw InvalidValue, fresh_page).
Proof. by vm_compute. Qed.

(* ===================================================================== *)
(** * Further properties: reads, removal and independence *)
(* ===================================================================== *)

Section Frames.

Lemma aria_inj a b : aria a = aria b -> toLowerCase a = toLowerCase b.
Proof. unfold aria. by intros ?%String.app_inj. Qed.

Lemma lower_ascii_idempotent c : lower_ascii (lower_ascii c) = lower_ascii c.
Proof. by destruct c as [[] [] [] [] [] [] [] []]. Qed.

Lemma lower_ascii_226 c : lower_ascii c = "226"%char -> c = "226"%char.
Proof.
  destruct c as [[] [] [] [] [] [] [] []]; intros H;
    try discriminate H; reflexivity.
Qed.

Lemma lower_ascii_132 c : lower_ascii c = "132"%char -> c = "132"%char.
Proof.
  destruct c as [[] [] [] [] [] [] [] []]; intros H;
    try discriminate H; reflexivity.
Qed.

Lemma lower_ascii_170 c : lower_ascii c = "170"%char -> c = "170"%char.
Proof.
  destruct c as [[] [] [] [] [] [] [] []]; intros H;
    try discriminate H; reflexivity.
Qed.

(** Away from a Kelvin sign, lowercasing goes byte by byte. *)
Lemma toLowerCase_cons c s :
  starts_with_kelvin (String c s) = false ->
  toLowerCase (String c s) = String (lower_ascii c) (toLowerCase s).
Proof.
  intros Hk. destruct (ascii_dec c "226") as [->|Hc].
  - destruct s as [|c1 s1]; [reflexivity|].
    destruct (ascii_dec c1 "132") as [->|H1].
    + destruct s1 as [|c2 s2]; [reflexivity|].
      destruct (ascii_dec c2 "170") as [->|H2]; [discriminate Hk|].
      destruct c2 as [[] [] [] [] [] [] [] []]; try reflexivity.
      by destruct H2.
    + destruct c1 as [[] [] [] [] [] [] [] []]; try reflexivity.
      by destruct H1.
  - destruct c as [[] [] [] [] [] [] [] []]; try reflexivity.
    by destruct Hc.
Qed.

(** Lowercasing produces no Kelvin sign. *)
Lemma toLowerCase_no_kelvin s : starts_with_kelvin (toLowerCase s) = false.
Proof.
  destruct s as [|c s]; [reflexivity|].
  destruct (starts_with_kelvin (String c s)) eqn:Hk.
  { destruct c as [[] [] [] [] [] [] [] []]; try discriminate Hk.
    destruct s as [|[[] [] [] [] [] [] [] []] s]; try discriminate Hk.
    destruct s as [|[[] [] [] [] [] [] [] []] s]; try discriminate Hk.
    reflexivity. }
  rewrite toLowerCase_cons by done.
  destruct (ascii_dec (lower_ascii c) "226") as [Hc|Hc].
  2:{ destruct (lower_ascii c) as [[] [] [] [] [] [] [] []]; try reflexivity.
      by destruct Hc. }
  rewrite Hc. apply lower_ascii_226 in Hc as ->.
  destruct s as [|c1 s1]; [reflexivity|].
  destruct (starts_with_kelvin (String c1 s1)) eqn:Hk1.
  { destruct c1 as [[] [] [] [] [] [] [] []]; try discriminate Hk1.
    destruct s1 as [|[[] [] [] [] [] [] [] []] s1]; try discriminate Hk1.
    destruct s1 as [|[[] [] [] [] [] [] [] []] s1]; try discriminate Hk1.
    reflexivity. }
  rewrite toLowerCase_cons by done.
  destruct (ascii_dec (lower_ascii c1) "132") as [Hc1|Hc1].
  2:{ destruct (lower_ascii c1) as [[] [] [] [] [] [] [] []];
        try reflexivity. by destruct Hc1. }
  rewrite Hc1. apply lower_ascii_132 in Hc1 as ->.
  destruct s1 as [|c2 s2]; [reflexivity|].
  destruct (starts_with_kelvin (String c2 s2)) eqn:Hk2.
  { destruct c2 as [[] [] [] [] [] [] [] []]; try discriminate Hk2.
    destruct s2 as [|[[] [] [] [] [] [] [] []] s2]; try discriminate Hk2.
    destruct s2 as [|[[] [] [] [] [] [] [] []] s2]; try discriminate Hk2.
    reflexivity. }
  rewrite toLowerCase_cons by done.
  destruct (ascii_dec (lower_ascii c2) "170") as [Hc2|Hc2].
  2:{ destruct (lower_ascii c2) as [[] [] [] [] [] [] [] []];
        try reflexivity. by destruct Hc2. }
  apply lower_ascii_170 in Hc2 as ->. discriminate Hk.
Qed.

Lemma toLowerCase_idempotent s : toLowerCase (toLowerCase s) = toLowerCase s.
Proof.
  remember (String.length s) as n eqn:Hn.
  revert s Hn. induction n as [n IH] using lt_wf_ind. intros s Hn.
  destruct s as [|c s]; [reflexivity|].
  destruct (starts_with_kelvin (String c s)) eqn:Hk.
  - destruct c as [[] [] [] [] [] [] [] []]; try discriminate Hk.
    destruct s as [|[[] [] [] [] [] [] [] []] s]; try discriminate Hk.
    destruct s as [|[[] [] [] [] [] [] [] []] s]; try discriminate Hk.
    change (toLowerCase (String "k" (toLowerCase s))
            = String "k" (toLowerCase s)).
    change (String "k" (toLowerCase (toLowerCase s))
            = String "k" (toLowerCase s)).
    f_equal. apply (IH (String.length s)); [simpl in Hn; lia|done].
  - pose proof (toLowerCase_no_kelvin (String c s)) as Hno.
    rewrite toLowerCase_cons in Hno |- * by done.
    rewrite toLowerCase_cons by done.
    rewrite lower_ascii_idempotent. f_equal.
    apply (IH (String.length s)); [simpl in Hn; lia|done].
Qed.

(** [get] only looks at the raw string under the attribute's key. *)
Lemma get_raw this attribute st :
  get this attribute st =
  (fst (get this attribute st), st) /\
  forall st',
    raw_of st' this attribute = raw_of st this attribute ->
    fst (get this attribute st') = fst (get this attribute st).
Proof.
  split.
  - rewrite get_unfold. cbv zeta.
    by destruct (describe _) as [[]|].
  - intros st' Hraw. rewrite !get_unfold. cbv zeta.
    rewrite !getAttribute_attributes_of. fold (aria attribute).
    unfold raw_of in Hraw. rewrite Hraw.
    by destruct (describe _) as [[]|].
Qed.

Lemma raw_of_written st this key v that attribute :
  that <> this \/ aria attribute <> key ->
  raw_of (written st this key v) that attribute = raw_of st that attribute.
Proof.
  intros H. unfold raw_of. rewrite attributes_written.
  destruct (decide (that = this)) as [->|]; [|done].
  destruct H as [H|H]; [done|]. by rewrite lookup_insert_ne.
Qed.

Lemma raw_of_extends st st' that attribute :
  extends st st' -> raw_of st' that attribute = raw_of st that attribute.
Proof. intros [A _ _]. unfold raw_of. apply A, aria_not_id. Qed.

Lemma removeAttribute_twice d h name :
  Dom.removeAttribute (Dom.removeAttribute d h name) h name
  = Dom.removeAttribute d h name.
Proof.
  unfold Dom.removeAttribute. rewrite lookup_total_insert_eq. simpl.
  by rewrite insert_insert_eq, delete_delete_eq.
Qed.

Lemma written_twice st this key v w :
  written (written st this key v) this key w = written st this key w.
Proof.
  unfold written, Dom.setAttribute. simpl. f_equal.
  rewrite lookup_total_insert_eq. simpl.
  by rewrite insert_insert_eq, insert_insert_eq.
Qed.

End Frames.

(** X1.  [get] never writes: the state after the call is the state before
    it, for any name; and for a name of the vocabulary it returns a value
    (it does not throw), whatever raw string is stored. *)
Theorem get_reads_only this attribute st :
  snd (get this attribute st) = st /\
  (In (toLowerCase attribute) vocabulary ->
   exists v, get this attribute st = (Ok v, st)).
Proof.
  destruct (get_raw this attribute st) as [E _]. split; [by rewrite E|].
  intros H%describe_vocabulary. rewrite get_unfold in *. cbv zeta in *.
  destruct (describe _) as [[]|]; by eauto.
Qed.

Lemma get_reads_only_witness :
  exists v,
    get 0%nat "setsize" (written fresh_page 0%nat "aria-setsize" "one")
    = (Ok v, written fresh_page 0%nat "aria-setsize" "one").
Proof.
  apply (get_reads_only 0%nat "setsize"). simpl. tauto.
Defined.

(** X2.  The attribute name is matched case-insensitively: each of [set],
    [get] and [unset] behaves on a name as on its lowercase form, hence
    alike on any two names with the same lowercase form. *)
Theorem attribute_name_case_insensitive this a b v st :
  toLowerCase a = toLowerCase b ->
  set this a v st = set this b v st /\
  get this a st = get this b st /\
  unset this a st = unset this b st /\
  set this (toLowerCase a) v st = set this a v st /\
  get this (toLowerCase a) st = get this a st /\
  unset this (toLowerCase a) st = unset this a st.
Proof.
  intros H. unfold set, get, unset. cbv zeta.
  rewrite toLowerCase_idempotent, H. done.
Qed.

Lemma attribute_name_case_insensitive_witness :
  set 0%nat "ColCount" (VNumber (Finite 3)) fresh_page
  = set 0%nat "colcount" (VNumber (Finite 3)) fresh_page.
Proof.
  apply (attribute_name_case_insensitive 0%nat "ColCount" "colcount").
  reflexivity.
Defined.

(** X3.  [unset] is idempotent and total on the vocabulary: for every
    recognised name it returns, the attribute is absent afterwards, and a
    second [unset] leaves the state as the first one left it. *)
Theorem unset_idempotent this attribute st :
  In (toLowerCase attribute) vocabulary ->
  exists st',
    unset this attribute st = (Ok tt, st') /\
    raw_of st' this attribute = None /\
    unset this attribute st' = (Ok tt, st').
Proof.
  intros H%describe_vocabulary. rewrite !unset_unfold. cbv zeta.
  destruct (describe (toLowerCase attribute)); [|done].
  eexists. split; [reflexivity|]. split.
  - apply getAttribute_removeAttribute.
  - unfold removeAttribute. simpl. by rewrite removeAttribute_twice.
Qed.

Lemma unset_idempotent_witness :
  exists st',
    unset 0%nat "atomic" (written fresh_page 0%nat "aria-atomic" "true")
    = (Ok tt, st') /\
    raw_of st' 0%nat "atomic" = None /\
    unset 0%nat "atomic" st' = (Ok tt, st').
Proof.
  apply (unset_idempotent 0%nat "atomic"). simpl. tauto.
Defined.

(** X4.  After [unset(name)], [get(name)] returns [null] for every
    attribute of the vocabulary that is not a Number attribute, whatever
    was stored before. *)
Theorem get_after_unset_is_null this attribute st :
  In (toLowerCase attribute) vocabulary ->
  ~ In (toLowerCase attribute) NumberAttributes ->
  fst ((do unset this attribute in get this attribute) st) = Ok VNull.
Proof.
  intros Hv Hn.
  destruct (unset_removes this attribute st Hv) as (st' & U & Habs).
  unfold bind. rewrite U.
  apply describe_vocabulary in Hv.
  destruct (describe (toLowerCase attribute)) as [d|] eqn:D; [|done].
  rewrite (get_absent_not_number this attribute d st' D); [done| |done].
  intros ->. apply Hn, one_of_In. by rewrite (describe_Number_iff _ _ D).
Qed.

Lemma get_after_unset_is_null_witness :
  fst ((do unset 0%nat "haspopup" in get 0%nat "haspopup")
         (written fresh_page 0%nat "aria-haspopup" "menu")) = Ok VNull.
Proof.
  apply (get_after_unset_is_null 0%nat "haspopup").
  - simpl. tauto.
  - simpl. intros H. repeat (destruct H as [H|H]; [discriminate H|]). done.
Defined.

(* ===================================================================== *)
(** * Further properties: what [set] resolves and what it writes *)
(* ===================================================================== *)

Section Resolution.

(** Resolving items whose elements all carry an identifier writes
    nothing. *)
Lemma mapM_getId_resolved items st :
  Forall (fun h => id_of st h <> "") (element_handles items) ->
  mapM getId items st = (Ok (map (ref_in st) items), st).
Proof.
  induction items as [|v items IH]; [done|].
  intros F. rewrite mapM_cons.
  assert (getId v st = (Ok (ref_in st v), st)) as ->.
  { rewrite getId_run. destruct v; try done.
    apply Forall_cons in F as [Hh%truthy_nonempty _]. by rewrite Hh. }
  rewrite IH; [done|]. destruct v; try done. by apply Forall_cons in F as [_ F].
Qed.

(** Resolving items leaves the identifier of any node that is not among
    them as it was. *)
Lemma mapM_getId_frame items h :
  forall st,
    h ∉ element_handles items ->
    id_of (snd (mapM getId items st)) h = id_of st h.
Proof.
  induction items as [|v items IH]; intros st Hh; [done|].
  rewrite mapM_cons.
  destruct (getId_extends v st) as (st1 & R & _ & _).
  destruct (mapM_getId_run items st1) as (st2 & R2 & _ & _).
  rewrite R, R2. simpl.
  assert (id_of st1 h = id_of st h) as <-.
  { rewrite getId_run in R.
    destruct v as [| | | | | |h'| | |]; try (by simplify_eq).
    destruct (truthy (id_of st h')); simplify_eq; [done|].
    unfold id_of. simpl. rewrite id_set_id.
    rewrite decide_False; [done|]. intros ->. apply Hh. simpl. left. }
  specialize (IH st1). rewrite R2 in IH. apply IH.
  destruct v; try done. simpl in Hh. by apply not_elem_of_cons in Hh as [_ Hh].
Qed.

(** [set] in two steps: it resolves a list of items (empty unless the value
    is an element or a collection given to a reference attribute), then
    either writes one string computed from the identifiers or throws; it
    only throws when there was nothing to resolve. *)
Lemma set_factor this attribute v :
  exists items k, set_factors this attribute v items k.
Proof.
  assert (forall s : string,
    value_handles v = [] ->
    (forall st, set this attribute v st
                = (Ok tt, written st this (aria attribute) s)) ->
    exists items k, set_factors this attribute v items k) as plain.
  { intros s Hv Hs. exists [], (fun _ => Ok s). split; [done|].
    split; [by intros h ?%elem_of_nil|]. split; [by left|].
    intros _ _ _ h. by rewrite Hv. }
  assert (forall e : TypeError,
    (forall st, set this attribute v st = (Throw e, st)) ->
    exists items k, set_factors this attribute v items k) as throws.
  { intros e He. exists [], (fun _ => Throw e). split; [done|].
    split; [by intros h ?%elem_of_nil|]. split; [by left|done]. }
  assert (forall items,
    (forall h, h ∈ element_handles items <-> h ∈ value_handles v) ->
    (forall st, set this attribute v st =
       (let* refs := mapM getId items in
        setAttr this (toLowerCase attribute) (join " " (filter truthy refs)))
         st) ->
    exists items k, set_factors this attribute v items k) as resolves.
  { intros items Hsub Hs.
    exists items, (fun refs => Ok (join " " (filter truthy refs))).
    split; [|split; [by intros h ?%Hsub|split; [right; eauto|]]].
    - intros st. rewrite Hs. unfold bind, resolve_then_write.
      by destruct (mapM getId items st) as [[refs|e] st1].
    - intros _ _ _ h. apply Hsub. }
  assert (forall h, v = VElement h ->
    forall st,
      (let* ref := getId v in setAttr this (toLowerCase attribute) ref) st =
      (let* refs := mapM getId [v] in
       setAttr this (toLowerCase attribute) (join " " (filter truthy refs)))
        st) as single.
  { intros h -> st. unfold bind. rewrite (mapM_cons getId (VElement h) []).
    destruct (getId_extends (VElement h) st) as (st1 & -> & _ & N).
    simpl. specialize (N h eq_refl). apply truthy_nonempty in N.
    rewrite filter_cons, decide_True by by rewrite N. done. }
  generalize (set_unfold this attribute v). cbv zeta.
  destruct (describe (toLowerCase attribute)) as [d|];
    [|intros E; apply (throws InvalidAttribute); intros; by rewrite E].
  destruct d.
  - destruct v; intros E;
      try (apply (throws InvalidValue); intros; by rewrite E).
    apply (plain s); [done|]. intros. by rewrite E.
  - destruct v; intros E;
      try (apply (throws InvalidValue); intros; by rewrite E).
    + apply (plain s); [done|]. intros. by rewrite E.
    + apply (resolves [VElement h]); [done|].
      intros st. rewrite E. by apply (single h).
  - destruct v; intros E;
      try (apply (throws InvalidValue); intros; by rewrite E).
    + apply (plain s); [done|]. intros. by rewrite E.
    + apply (resolves [VElement h]); [done|].
      intros st. rewrite E. by apply (single h).
    + apply (resolves items); [done|]. intros. by rewrite E.
    + apply (resolves items); [done|]. intros. by rewrite E.
  - destruct v as [| |b| | | | | | |]; intros E;
      try (apply (throws InvalidValue); intros; by rewrite E).
    + apply (plain "true"); [done|]. intros. by rewrite E.
    + apply (plain (BooleanToString b)); [done|]. intros. by rewrite E.
  - destruct v as [| |b| | |s| | | |]; intros E;
      try (apply (throws InvalidValue); intros; by rewrite E).
    + apply (plain "true"); [done|]. intros. by rewrite E.
    + apply (plain (BooleanToString b)); [done|]. intros. by rewrite E.
    + simpl in E. destruct (one_of s tokens).
      * apply (plain s); [done|]. intros. by rewrite E.
      * apply (throws InvalidValue). intros. by rewrite E.
  - destruct v as [| | | | |s| | | |]; intros E;
      try (apply (throws InvalidValue); intros; by rewrite E).
    simpl in E. destruct (one_of s tokens).
    + apply (plain s); [done|]. intros. by rewrite E.
    + apply (throws InvalidValue). intros. by rewrite E.
  - destruct v as [| | |n|z|s| | | |]; intros E;
      try (apply (throws InvalidValue); intros; by rewrite E);
      (destruct (isNaN (Number_ _));
       [apply (throws InvalidValue); intros; by rewrite E
       |eapply plain; [done|]; intros; rewrite E; reflexivity]).
Qed.

End Resolution.

(** X5.  [set] and [unset] touch one attribute of one element: whatever
    they do (write, remove or throw), [get] of any other attribute, or of
    any attribute of another element, returns afterwards what it returned
    before. *)
Theorem other_attributes_untouched this attribute v st that other :
  that <> this \/ toLowerCase other <> toLowerCase attribute ->
  fst (get that other (snd (set this attribute v st)))
  = fst (get that other st) /\
  fst (get that other (snd (unset this attribute st)))
  = fst (get that other st).
Proof.
  intros H.
  assert (that <> this \/ aria other <> aria attribute) as H'.
  { destruct H as [H|H]; [by left|right]. by intros ?%aria_inj. }
  split; apply get_raw.
  - destruct (set_cases this attribute v st)
      as [[e ->]|(st1 & s & X & -> & _)]; [done|].
    simpl. by rewrite raw_of_written, (raw_of_extends st st1).
  - rewrite unset_unfold. cbv zeta.
    destruct (describe (toLowerCase attribute)); [|done].
    unfold raw_of, attributes_of, removeAttribute, Dom.removeAttribute. simpl.
    destruct (decide (that = this)) as [->|Hne].
    + rewrite lookup_total_insert_eq. simpl.
      destruct H' as [H'|H']; [done|]. by rewrite lookup_delete_ne.
    + by rewrite lookup_total_insert_ne.
Qed.

Lemma other_attributes_untouched_witness :
  fst (get 0%nat "label"
         (snd (set 0%nat "labelledby" (VArray [VElement 1%nat])
                 (written fresh_page 0%nat "aria-label" "Close"))))
  = fst (get 0%nat "label" (written fresh_page 0%nat "aria-label" "Close")).
Proof.
  apply (other_attributes_untouched 0%nat "labelledby"
           (VArray [VElement 1%nat])
           (written fresh_page 0%nat "aria-label" "Close") 0%nat "label").
  right. discriminate.
Defined.

Section SetAndIdentifiers.

Variables (this : handle) (attribute : string) (v : value) (st : state).

(** The state [set] reaches, through the factorisation. *)
Lemma set_reaches :
  exists items k refs st1,
    set_factors this attribute v items k /\
    mapM getId items st = (Ok refs, st1) /\
    refs = map (ref_in st1) items /\
    extends st st1 /\
    Forall (fun h => id_of st1 h <> "") (element_handles items) /\
    set this attribute v st =
    match k refs with
    | Ok s => (Ok tt, written st1 this (aria attribute) s)
    | Throw e => (Throw e, st1)
    end.
Proof.
  destruct (set_factor this attribute v) as (items & k & F).
  destruct (mapM_getId_run items st) as (st1 & R & X & N).
  exists items, k, (map (ref_in st1) items), st1.
  repeat (split; [done|]).
  destruct F as [-> _]. unfold resolve_then_write. by rewrite R.
Qed.

End SetAndIdentifiers.

(** X6.  [set] only ever assigns identifiers that are missing.  Whatever
    the call does, the counter does not go back; a node that carries an
    identifier keeps it; a node the value does not mention keeps its [id]
    field as it is; and when every element the value mentions carries an
    identifier (in particular when it mentions none), no [id] field and
    not the counter changes. *)
Theorem set_assigns_only_missing_ids this attribute v st :
  let st' := snd (set this attribute v st) in
  idCounter st <= idCounter st' /\
  (forall h, id_of st h <> "" -> id_of st' h = id_of st h) /\
  (forall h, h ∉ value_handles v -> id_of st' h = id_of st h) /\
  (Forall (fun h => id_of st h <> "") (value_handles v) ->
   idCounter st' = idCounter st /\ forall h, id_of st' h = id_of st h).
Proof.
  destruct (set_reaches this attribute v st)
    as (items & k & refs & st1 & (F & Hsub & _ & _) & R & _ & X & _ & E).
  assert (idCounter (snd (set this attribute v st)) = idCounter st1 /\
          forall h, id_of (snd (set this attribute v st)) h = id_of st1 h)
    as [C I].
  { rewrite E. destruct (k refs); [|done]. split; [done|].
    intros h. apply id_written_aria. }
  cbv zeta. rewrite C. split; [by destruct X|].
  split; [|split].
  - intros h Hh. rewrite I. by apply extends_keeps_id.
  - intros h Hh. rewrite I.
    pose proof (mapM_getId_frame items h st) as Fr. rewrite R in Fr.
    apply Fr. intros Hin. by apply Hh, Hsub.
  - intros Hall.
    assert (Forall (fun h => id_of st h <> "") (element_handles items)) as Hi.
    { rewrite Forall_forall in Hall |- *. intros h Hin. by apply Hall, Hsub. }
    rewrite (mapM_getId_resolved items st Hi) in R. injection R as _ <-.
    split; [done|]. intros h. by rewrite I.
Qed.

Lemma set_assigns_only_missing_ids_witness :
  id_of (snd (set 0%nat "owns" (VArray [VElement 1%nat; VElement 2%nat])
                {| elements := Dom.set_id ∅ 2%nat "item-2";
                   idCounter := 1 |})) 2%nat
  = "item-2".
Proof.
  refine (proj1 (proj2 (set_assigns_only_missing_ids 0%nat "owns"
                          (VArray [VElement 1%nat; VElement 2%nat])
                          {| elements := Dom.set_id ∅ 2%nat "item-2";
                             idCounter := 1 |})) 2%nat _).
  vm_compute. discriminate.
Defined.

(** X7.  [set] is idempotent: the same call repeated right away gives the
    same outcome (it returns again, or throws the same error again) and
    leaves the state as the first call left it. *)
Theorem set_idempotent this attribute v st :
  set this attribute v (snd (set this attribute v st))
  = set this attribute v st.
Proof.
  destruct (set_reaches this attribute v st)
    as (items & k & refs & st1 & (F & _ & Hk & _) & R & -> & _ & N & E).
  rewrite E. destruct (k (map (ref_in st1) items)) as [s|e] eqn:K.
  - simpl. rewrite F. unfold resolve_then_write.
    rewrite mapM_getId_resolved.
    + assert (map (ref_in (written st1 this (aria attribute) s)) items
              = map (ref_in st1) items) as ->.
      { apply map_ext. intros [| | | | | |h| | |]; try done.
        apply id_written_aria. }
      by rewrite K, written_twice.
    + eapply Forall_impl; [exact N|]. intros h Hh. by rewrite id_written_aria.
  - destruct Hk as [->|Hk]; [|destruct (Hk (map (ref_in st1) items)); congruence].
    simpl in *. injection R as <-. rewrite F. unfold resolve_then_write.
    simpl. by rewrite K.
Qed.

(* ===================================================================== *)
(** * Further properties: strict writes *)
(* ===================================================================== *)

(** X8.  What a boolean-capable attribute accepts: [set] returns exactly
    when the value is omitted, a boolean, or a string that is one of the
    attribute's tokens, and throws [InvalidValue] without writing
    otherwise.  The strings "true" and "false" are no tokens, so they are
    rejected although [get] reads them as booleans. *)
Theorem boolean_attribute_accepts this attribute v st :
  In (toLowerCase attribute) BooleanCapableAttributes ->
  ((exists st', set this attribute v st = (Ok tt, st')) <->
   (v = VUndefined \/ (exists b, v = VBoolean b) \/
    exists s, v = VString s /\
              In s (permitted_tokens (toLowerCase attribute)))) /\
  ((forall st', set this attribute v st <> (Ok tt, st')) ->
   set this attribute v st = (Throw InvalidValue, st)) /\
  (forall b, set this attribute (VString (BooleanToString b)) st
             = (Throw InvalidValue, st)).
Proof.
  intros H.
  assert (exists tokens,
    permitted_tokens (toLowerCase attribute) = tokens /\
    one_of "true" tokens = false /\ one_of "false" tokens = false /\
    forall w, set this attribute w st =
              set_boolean_or_token this (toLowerCase attribute) tokens w st)
    as (tokens & -> & Ht & Hf & E).
  { exists (permitted_tokens (toLowerCase attribute)). split; [done|].
    destruct (describe_BooleanCapable _ H) as [[D P]|D].
    - rewrite P. split; [done|]. split; [done|].
      intros w. rewrite set_unfold. cbv zeta. rewrite D. by destruct w.
    - destruct (BooleanWithTokens_not_boolean _ _
                  (describe_BooleanWithTokens _ _ D)) as [Ht Hf].
      split; [done|]. split; [done|].
      intros w. rewrite set_unfold. cbv zeta. by rewrite D. }
  rewrite !E. split; [|split].
  - split.
    + intros [st' S]. destruct v as [| |b| | |s| | | |]; try done; eauto.
      right. right. exists s. split; [done|]. apply one_of_In.
      simpl in S. by destruct (one_of s tokens).
    + intros [->|[[b ->]|(s & -> & Hs%one_of_In)]]; simpl; eauto.
      rewrite Hs. eauto.
  - intros Hno. destruct v as [| |b| | |s| | | |]; try done;
      try (by exfalso; eapply Hno).
    simpl in *. destruct (one_of s tokens); [|done].
    by exfalso; eapply Hno.
  - intros b. rewrite ?E. unfold set_boolean_or_token.
    destruct b; unfold BooleanToString; by rewrite ?Ht, ?Hf.
Qed.

Lemma boolean_attribute_accepts_witness :
  set 0%nat "checked" (VString "true") fresh_page
  = (Throw InvalidValue, fresh_page).
Proof.
  refine (proj2 (proj2 (boolean_attribute_accepts 0%nat "checked"
                          (VString "true") fresh_page _)) true).
  simpl. tauto.
Defined.

(* ===================================================================== *)
(** * Further properties: the convenience methods *)
(* ===================================================================== *)

Section BooleanMethods.

Variables (this : handle) (attribute : string) (st : state).
Hypothesis Hbool : In (toLowerCase attribute) BooleanCapableAttributes.

(** [this.get(name) === true] holds exactly on the raw string "true". *)
Lemma get_is_true :
  (let* v := get this attribute in ret (strict_equals v (VBoolean true))) st
  = (Ok (raw_is st this attribute "true"), st).
Proof.
  unfold bind, raw_is, raw_of.
  destruct (attributes_of st this !! aria attribute) as [raw|] eqn:Hraw.
  - rewrite (get_boolean_capable this attribute st Hbool raw Hraw).
    unfold get_boolean_or_token, ret.
    destruct (String.eqb raw "true"); [done|].
    destruct (String.eqb raw "false"); [done|]. by destruct (one_of _ _).
  - rewrite get_unfold. cbv zeta. rewrite getAttribute_attributes_of.
    fold (aria attribute). rewrite Hraw.
    by destruct (describe_BooleanCapable _ Hbool) as [[-> _]| ->].
Qed.

(** Writing a boolean, omitted or not, always goes through. *)
Lemma set_boolean_capable b :
  set this attribute VUndefined st
  = (Ok tt, written st this (aria attribute) "true") /\
  set this attribute (VBoolean b) st
  = (Ok tt, written st this (aria attribute) (BooleanToString b)).
Proof.
  rewrite !set_unfold. cbv zeta.
  by destruct (describe_BooleanCapable _ Hbool) as [[-> _]| ->].
Qed.

Lemma raw_is_written s w :
  raw_is (written st this (aria attribute) s) this attribute w
  = String.eqb s w.
Proof.
  unfold raw_is, raw_of. rewrite attributes_written, decide_True by done.
  by rewrite lookup_insert_eq.
Qed.

End BooleanMethods.

(** X9.  Each of the fourteen boolean queries ([isAtomic], [isBusy],
    [isChecked], ..., [isSelected]) returns [true] exactly when the raw
    string stored for its attribute is "true", [false] in every other case
    (absent, "false", a token, a malformed string); it never throws and
    never writes. *)
Theorem boolean_queries_read_true :
  Forall (fun '(attribute, query) =>
            forall this st,
              query this st = (Ok (raw_is st this attribute "true"), st))
         boolean_queries.
Proof.
  unfold boolean_queries.
  repeat (constructor; [intros this st;
    match goal with
    | |- _ = (Ok (raw_is _ _ ?a _), _) => apply (get_is_true this a)
    end; simpl; tauto|]).
  constructor.
Qed.

(** X10.  For each of the eight switchable attributes (checked, disabled,
    expanded, grabbed, hidden, pressed, required, selected): the setter to
    [true] and the setter to [false] always return, write "true" resp.
    "false" under the attribute and nothing else, and the query then
    answers [true] resp. [false], whatever was stored before. *)
Theorem switches_set_and_query :
  Forall (fun sw =>
            forall this st,
              let on := written st this (aria (sw_attribute sw)) "true" in
              let off := written st this (aria (sw_attribute sw)) "false" in
              sw_on sw this st = (Ok tt, on) /\
              sw_query sw this on = (Ok true, on) /\
              sw_off sw this st = (Ok tt, off) /\
              sw_query sw this off = (Ok false, off))
         switches.
Proof.
  unfold switches.
  repeat (constructor; [intros this st; cbv zeta; cbn [sw_attribute sw_on
      sw_off sw_query];
    match goal with
    | |- _ /\ ?q _ (written _ _ (aria ?a) _) = _ /\ _ =>
        assert (In (toLowerCase a) BooleanCapableAttributes) as H
          by (simpl; tauto);
        pose proof (set_boolean_capable this a st H false) as [Son Soff];
        pose proof (get_is_true this a (written st this (aria a) "true") H)
          as Qon;
        pose proof (get_is_true this a (written st this (aria a) "false") H)
          as Qoff;
        rewrite raw_is_written in Qon, Qoff
    end; done|]).
  constructor.
Qed.

(** X11.  Each of the eight toggles always returns and writes the negation
    of what its query answered: "false" when the raw string was "true",
    "true" in every other case (also when it was absent, a token or
    malformed); the query then answers the opposite of before, and a
    second toggle stores the opposite again. *)
Theorem toggles_negate :
  Forall (fun sw =>
            forall this st,
              let a := sw_attribute sw in
              let b := raw_is st this a "true" in
              let st1 := written st this (aria a) (BooleanToString (negb b)) in
              let st2 := written st this (aria a) (BooleanToString b) in
              sw_query sw this st = (Ok b, st) /\
              sw_toggle sw this st = (Ok tt, st1) /\
              sw_query sw this st1 = (Ok (negb b), st1) /\
              sw_toggle sw this st1 = (Ok tt, st2))
         switches.
Proof.
  assert (forall this a st,
    In (toLowerCase a) BooleanCapableAttributes ->
    let b := raw_is st this a "true" in
    (let* x := (let* v := get this a in ret (strict_equals v (VBoolean true)))
     in set this a (VBoolean (negb x))) st
    = (Ok tt, written st this (aria a) (BooleanToString (negb b)))) as T.
  { intros this a st H b. unfold bind at 1.
    rewrite (get_is_true this a st H).
    apply (set_boolean_capable this a st H). }
  unfold switches.
  repeat (constructor; [intros this st; cbv zeta; cbn [sw_attribute sw_toggle
      sw_query];
    match goal with
    | |- ?q _ _ = (Ok (raw_is _ _ ?a _), _) /\ _ =>
        assert (In (toLowerCase a) BooleanCapableAttributes) as H
          by (simpl; tauto);
        pose proof (get_is_true this a st H) as Q0;
        pose proof (T this a st H) as T0; cbv zeta in T0;
        set (b := raw_is st this a "true") in *;
        pose proof (get_is_true this a
                      (written st this (aria a) (BooleanToString (negb b))) H)
          as Q1;
        pose proof (T this a
                      (written st this (aria a) (BooleanToString (negb b))) H)
          as T1; cbv zeta in T1;
        rewrite raw_is_written in Q1, T1;
        rewrite written_twice in T1;
        assert (String.eqb (BooleanToString (negb b)) "true" = negb b) as Eb
          by (by destruct b);
        rewrite Eb in Q1, T1; rewrite negb_involutive in T1
    end; done|]).
  constructor.
Qed.

Section TokenMethods.

Variables (tokens : list string).
Hypothesis Htrue : one_of "true" tokens = false.
Hypothesis Hfalse : one_of "false" tokens = false.

(** [currentValue === true]. *)
Lemma current_is_true raw :
  strict_equals (get_boolean_or_token tokens raw) (VBoolean true)
  = match raw with Some r => String.eqb r "true" | None => false end.
Proof.
  destruct raw as [r|]; [|done]. unfold get_boolean_or_token.
  destruct (String.eqb r "true"); [done|].
  destruct (String.eqb r "false"); [done|]. by destruct (one_of r tokens).
Qed.

(** [currentValue === s] for a string [s]. *)
Lemma current_is_token raw s :
  strict_equals (get_boolean_or_token tokens raw) (VString s)
  = match raw with
    | Some r => String.eqb r s && one_of s tokens
    | None => false
    end.
Proof.
  destruct raw as [r|]; [|done]. unfold get_boolean_or_token.
  destruct (String.eqb r "true") eqn:E1.
  { cbn [strict_equals]. destruct (String.eqb r s) eqn:E; [|done].
    apply String.eqb_eq in E as <-. apply String.eqb_eq in E1 as ->.
    by rewrite Htrue. }
  destruct (String.eqb r "false") eqn:E2.
  { cbn [strict_equals]. destruct (String.eqb r s) eqn:E; [|done].
    apply String.eqb_eq in E as <-. apply String.eqb_eq in E2 as ->.
    by rewrite Hfalse. }
  destruct (one_of r tokens) eqn:E3; cbn [strict_equals];
    (destruct (String.eqb r s) eqn:E; [|done]);
    apply String.eqb_eq in E as <-; by rewrite E3.
Qed.

End TokenMethods.

Section CurrentValue.

Variables (this : handle) (attribute : string) (st : state).
Hypothesis Hbool : In (toLowerCase attribute) BooleanCapableAttributes.

(** What [get] returns for a boolean-capable attribute, present or not. *)
Lemma get_current_value :
  get this attribute st =
  (Ok (get_boolean_or_token (permitted_tokens (toLowerCase attribute))
         (raw_of st this attribute)), st).
Proof.
  unfold raw_of.
  destruct (attributes_of st this !! aria attribute) as [raw|] eqn:Hraw.
  - by apply get_boolean_capable.
  - rewrite get_unfold. cbv zeta. rewrite getAttribute_attributes_of.
    fold (aria attribute). rewrite Hraw.
    by destruct (describe_BooleanCapable _ Hbool) as [[-> _]| ->].
Qed.

End CurrentValue.

(** X12.  The three token queries ([isCurrent], [hasPopup], [isInvalid])
    never throw and never write.  Called without a value, or with a falsy
    one such as the empty string, they answer [true] exactly when the raw
    string is "true" or one of the attribute's tokens.  Called with a
    non-empty string, they answer [true] exactly when the raw string is
    that string and it is one of the tokens (so never for "true"); called
    with the boolean [true], exactly when the raw string is "true". *)
Theorem token_queries_answer :
  Forall (fun '(attribute, query) =>
            forall this st,
              (forall v, ToBoolean v = false ->
                 query this v st
                 = (Ok (raw_is st this attribute "true"
                        || existsb (raw_is st this attribute)
                             (permitted_tokens attribute)), st)) /\
              (forall s, s <> "" ->
                 query this (VString s) st
                 = (Ok (raw_is st this attribute s
                        && one_of s (permitted_tokens attribute)), st)) /\
              query this (VBoolean true) st
              = (Ok (raw_is st this attribute "true"), st))
         token_queries.
Proof.
  unfold token_queries.
  repeat (constructor; [intros this st;
    match goal with
    | |- (forall v, _ -> ?q _ _ _ = (Ok (raw_is _ _ ?a _ || _), _)) /\ _ =>
        assert (In (toLowerCase a) BooleanCapableAttributes) as H
          by (simpl; tauto);
        pose proof (get_current_value this a st H) as G;
        unfold q, bind; rewrite G;
        change (permitted_tokens (toLowerCase a)) with (permitted_tokens a);
        pose proof (current_is_true (permitted_tokens a) (raw_of st this a))
          as Ct;
        pose proof (current_is_token (permitted_tokens a) eq_refl eq_refl
                      (raw_of st this a)) as Ck;
        unfold raw_is;
        split; [|split];
        [ intros v ->; rewrite Ct, !Ck; unfold ret;
          destruct (raw_of st this a) as [r|]; [|done]; simpl;
          by repeat destruct (String.eqb r _)
        | intros s Hs%truthy_nonempty;
          change (ToBoolean (VString s)) with (truthy s); rewrite Hs, Ck;
          unfold ret; by destruct (raw_of st this a)
        | change (ToBoolean (VBoolean true)) with true; cbv iota;
          rewrite Ct; unfold ret; by destruct (raw_of st this a) ]
    end|]).
  constructor.
Qed.

Lemma token_queries_answer_witness :
  hasPopup 0%nat (VString "")
    (written fresh_page 0%nat "aria-haspopup" "menu")
  = (Ok true, written fresh_page 0%nat "aria-haspopup" "menu") /\
  hasPopup 0%nat (VString "grid")
    (written fresh_page 0%nat "aria-haspopup" "menu")
  = (Ok false, written fresh_page 0%nat "aria-haspopup" "menu").
Proof.
  pose proof token_queries_answer as H. unfold token_queries in H.
  apply Forall_cons_1 in H as [_ H]. apply Forall_cons_1 in H as [H _].
  destruct (H 0%nat (written fresh_page 0%nat "aria-haspopup" "menu"))
    as (Hfalsy & Hstring & _).
  split.
  - apply (Hfalsy (VString "")). reflexivity.
  - apply (Hstring "grid"). discriminate.
Defined.

(* ===================================================================== *)
(** * Further properties: the role *)
(* ===================================================================== *)

Section Role.

Lemma aria_not_role attribute : aria attribute <> "role".
Proof. unfold aria. intros H. discriminate H. Qed.

Lemma getRole_run this st :
  getRole this st = (Ok (of_attr (attributes_of st this !! "role")), st).
Proof. reflexivity. Qed.

End Role.

(** X13.  [setRole] with a string stores it verbatim under "role" and
    [getRole] returns it; with anything else (also no argument, [null])
    it throws and writes nothing; [getRole] returns [null] while no role
    is stored. *)
Theorem role_round_trip this st :
  (forall s,
     setRole this (VString s) st = (Ok tt, written st this "role" s) /\
     getRole this (written st this "role" s)
     = (Ok (VString s), written st this "role" s)) /\
  (forall role, (forall s, role <> VString s) ->
     setRole this role st = (Throw InvalidValue, st)) /\
  (attributes_of st this !! "role" = None ->
   getRole this st = (Ok VNull, st)).
Proof.
  split; [|split].
  - intros s. split; [done|]. rewrite getRole_run.
    rewrite attributes_written, decide_True by done.
    by rewrite lookup_insert_eq.
  - intros role Hrole. destruct role; try done. by destruct (Hrole s).
  - intros Habs. by rewrite getRole_run, Habs.
Qed.

Lemma role_round_trip_witness :
  setRole 0%nat VNull fresh_page = (Throw InvalidValue, fresh_page) /\
  getRole 0%nat fresh_page = (Ok VNull, fresh_page).
Proof.
  destruct (role_round_trip 0%nat fresh_page) as (_ & Hbad & Habsent).
  split; [apply Hbad; discriminate|apply Habsent; reflexivity].
Defined.

(** X14.  The role and the [aria-*] attributes do not interfere: [setRole]
    changes the result of no [get], and neither [set] nor [unset] changes
    the result of [getRole], on the wrapped element or on any other. *)
Theorem role_independent this that st :
  (forall role attribute,
     fst (get that attribute (snd (setRole this role st)))
     = fst (get that attribute st)) /\
  (forall attribute v,
     fst (getRole that (snd (set this attribute v st)))
     = fst (getRole that st)) /\
  (forall attribute,
     fst (getRole that (snd (unset this attribute st)))
     = fst (getRole that st)).
Proof.
  split; [|split].
  - intros role attribute. apply get_raw.
    destruct role; try done. simpl.
    change (raw_of (written st this "role" s) that attribute
            = raw_of st that attribute).
    apply raw_of_written. right. apply aria_not_role.
  - intros attribute v. rewrite !getRole_run. simpl. do 2 f_equal.
    destruct (set_cases this attribute v st)
      as [[e ->]|(st1 & s & [A _ _] & -> & _)]; [done|].
    simpl. rewrite attributes_written, <- (A that "role") by done.
    destruct (decide (that = this)) as [->|]; [|done].
    rewrite lookup_insert_ne; [done|]. apply aria_not_role.
  - intros attribute. rewrite !getRole_run. simpl. do 2 f_equal.
    rewrite unset_unfold. cbv zeta.
    destruct (describe (toLowerCase attribute)); [|done].
    unfold attributes_of, removeAttribute, Dom.removeAttribute. simpl.
    destruct (decide (that = this)) as [->|Hne].
    + rewrite lookup_total_insert_eq. simpl.
      rewrite lookup_delete_ne; [done|].
      apply (aria_not_role attribute).
    + by rewrite lookup_total_insert_ne.
Qed.

(* ===================================================================== *)
(** * Further properties: references given as elements *)
(* ===================================================================== *)

(** X15.  For every SingleReference and ReferenceList attribute,
    [set(name, element)] always returns.  If the element carries an
    identifier, that identifier is stored and nothing else changes (no
    [id] field, not the counter).  If it carries none, it receives the
    identifier generated at the current counter value, the counter moves
    on by one, and that identifier is stored. *)
Theorem set_reference_element this attribute h st :
  In (toLowerCase attribute) ReferenceAttributes ->
  (id_of st h <> "" ->
   set this attribute (VElement h) st
   = (Ok tt, written st this (aria attribute) (id_of st h))) /\
  (id_of st h = "" ->
   let fresh := generated (idCounter st) in
   set this attribute (VElement h) st
   = (Ok tt,
      written {| elements := Dom.set_id (elements st) h fresh;
                 idCounter := idCounter st + 1 |}
        this (aria attribute) fresh)).
Proof.
  intros H.
  assert (set this attribute (VElement h) st =
          (let* ref := getId (VElement h) in
           setAttr this (toLowerCase attribute) ref) st) as ->.
  { rewrite set_unfold. cbv zeta.
    by destruct (describe_Reference _ H) as [-> | ->]. }
  unfold bind. rewrite getId_run. split.
  - intros Hid%truthy_nonempty. by rewrite Hid.
  - intros Hid. by rewrite Hid.
Qed.

Lemma set_reference_element_witness :
  set 0%nat "activedescendant" (VElement 1%nat) fresh_page
  = (Ok tt,
     written {| elements := Dom.set_id ∅ 1%nat "easy-aria-id-1";
                idCounter := 2 |}
       0%nat "aria-activedescendant" "easy-aria-id-1").
Proof.
  refine (proj2 (set_reference_element 0%nat "activedescendant" 1%nat
                   fresh_page _) _).
  - simpl. tauto.
  - reflexivity.
Defined.

(** X16.  For every ReferenceList attribute, a collection without any
    element (the empty array, or items that are not elements) is accepted:
    [set] stores the empty string, assigns no identifier, and [get] then
    returns the empty string, not [null]. *)
Theorem set_reference_list_without_elements this attribute items st :
  In (toLowerCase attribute) IDREFListAttributes ->
  element_handles items = [] ->
  let st' := written st this (aria attribute) "" in
  set this attribute (VArray items) st = (Ok tt, st') /\
  set this attribute (VNodeList items) st = (Ok tt, st') /\
  get this attribute st' = (Ok (VString ""), st').
Proof.
  intros H Hnone. cbv zeta. pose proof (describe_IDREFList _ H) as D.
  assert (mapM getId items st = (Ok (map (ref_in st) items), st)) as R.
  { apply mapM_getId_resolved. by rewrite Hnone. }
  assert (filter truthy (map (ref_in st) items) = []) as F.
  { rewrite filter_truthy_refs by (by rewrite Hnone). by rewrite Hnone. }
  rewrite !set_unfold. cbv zeta. rewrite D. unfold bind. rewrite R, F.
  split; [done|]. split; [done|].
  by rewrite (get_written this attribute ReferenceList st "" D).
Qed.

Lemma set_reference_list_without_elements_witness :
  get 0%nat "owns" (written fresh_page 0%nat "aria-owns" "")
  = (Ok (VString ""), written fresh_page 0%nat "aria-owns" "").
Proof.
  apply (set_reference_list_without_elements 0%nat "owns" [VNull; VObject]
           fresh_page).
  - simpl. tauto.
  - reflexivity.
Defined.

(* ===================================================================== *)
(** * Further properties: the omitted value *)
(* ===================================================================== *)

(** X17.  Among the attributes of the vocabulary, the boolean-capable ones
    are exactly those for which the value may be omitted: for any other
    attribute (string, token, number, reference), [set(name)] without a
    value throws [InvalidValue] and writes nothing. *)
Theorem omitted_value_only_for_booleans this attribute st :
  In (toLowerCase attribute) vocabulary ->
  ((exists st', set this attribute VUndefined st = (Ok tt, st')) <->
   In (toLowerCase attribute) BooleanCapableAttributes) /\
  (~ In (toLowerCase attribute) BooleanCapableAttributes ->
   set this attribute VUndefined st = (Throw InvalidValue, st)).
Proof.
  intros H. rewrite set_unfold. cbv zeta. rewrite <- (one_of_In _ BooleanCapableAttributes).
  revert H. generalize (toLowerCase attribute) as a. intros a H.
  cases_of H; eval_labels; (split; [split|]);
    solve [ done | intros [st' S]; discriminate S | intros _; by eexists ].
Qed.

Lemma omitted_value_only_for_booleans_witness :
  set 0%nat "sort" VUndefined fresh_page = (Throw InvalidValue, fresh_page).
Proof.
  refine (proj2 (omitted_value_only_for_booleans 0%nat "sort" fresh_page _) _).
  - simpl. tauto.
  - simpl. intros H. repeat (destruct H as [H|H]; [discriminate H|]). done.
Defined.

(* ===================================================================== *)
(** * What a successful [set] writes *)
(* ===================================================================== *)

Section Writes.

Lemma element_handles_cons v items :
  element_handles (v :: items) = element_handles [v] ++ element_handles items.
Proof. by destruct v. Qed.

(** Resolving one item writes the attribute "id" of that item, if it is an
    element without identifier, and nothing else. *)
Lemma getId_stores v st h :
  attributes_of (snd (getId v st)) h
  = with_new_ids st (snd (getId v st)) (element_handles [v]) h.
Proof.
  unfold with_new_ids, receives_id. rewrite getId_run.
  destruct v as [| | | | | |h0| | |]; try done. simpl.
  destruct (truthy (id_of st h0)) eqn:E; simpl.
  - destruct (decide (h = h0)) as [->|Hne].
    + by rewrite E, andb_false_r.
    + rewrite bool_decide_false; [done|]. by intros ->%list_elem_of_singleton.
  - unfold attributes_of, id_of. simpl. unfold Dom.set_id at 1.
    rewrite attributes_setAttribute, id_set_id.
    destruct (decide (h = h0)) as [->|Hne].
    + fold (id_of st h0). rewrite E.
      rewrite bool_decide_true; [done|]. by apply list_elem_of_singleton.
    + rewrite bool_decide_false; [done|]. by intros ->%list_elem_of_singleton.
Qed.

(** Resolving a collection writes the attribute "id" of the elements in it
    that carried no identifier, and nothing else. *)
Lemma mapM_getId_stores items h :
  forall st,
    attributes_of (snd (mapM getId items st)) h
    = with_new_ids st (snd (mapM getId items st)) (element_handles items) h.
Proof.
  induction items as [|v items IH]; intros st; [done|].
  rewrite mapM_cons.
  destruct (getId_extends v st) as (st1 & R & X1 & _).
  destruct (mapM_getId_run items st1) as (st2 & R2 & X2 & _).
  pose proof (getId_stores v st h) as S1. rewrite R in S1. cbn [snd] in S1.
  specialize (IH st1). rewrite R2 in IH. cbn [snd] in IH.
  rewrite R, R2. simpl snd. rewrite IH.
  unfold with_new_ids, receives_id in *.
  rewrite element_handles_cons.
  destruct (truthy (id_of st h)) eqn:T.
  - (* the node has an identifier: nothing is written on it *)
    assert (id_of st1 h = id_of st h) as E1
      by (apply extends_keeps_id; [done|by apply truthy_nonempty]).
    rewrite E1, T, !andb_false_r in *. done.
  - destruct (bool_decide (h ∈ element_handles [v])) eqn:B1.
    + (* it is this item: it has its identifier from now on *)
      apply bool_decide_eq_true in B1.
      assert (id_of st1 h <> "") as N1.
      { destruct v as [| | | | | |h0| | |]; try by apply elem_of_nil in B1.
        apply list_elem_of_singleton in B1 as ->.
        destruct (getId_extends (VElement h0) st) as (st1' & R' & _ & N).
        rewrite R in R'. injection R' as _ <-. by apply N. }
      rewrite (proj2 (truthy_nonempty _) N1), andb_false_r.
      rewrite (extends_keeps_id st1 st2) by done.
      rewrite bool_decide_true by (apply elem_of_app; by left).
      exact S1.
    + (* it is not this item *)
      apply bool_decide_eq_false in B1.
      assert (id_of st1 h = id_of st h) as E1.
      { pose proof (mapM_getId_frame [v] h st) as Fr.
        rewrite mapM_cons, R in Fr. simpl in Fr. by apply Fr. }
      rewrite E1, T, S1. simpl.
      destruct (decide (h ∈ element_handles items)) as [Hin|Hout].
      * rewrite !bool_decide_true; [done| |done]. apply elem_of_app; by right.
      * rewrite !bool_decide_false; [done| |done].
        by intros [?|?]%elem_of_app.
Qed.

End Writes.

(** C4, as the specification words it, fails where the value is an element
    without identifier: [set('owns', el)] on the wrapped element [el]
    itself leaves its store with two new keys, "id" and "aria-owns". *)
Lemma set_writes_id_too :
  ~ exists s,
      attributes_of (snd (set 0%nat "owns" (VElement 0%nat) fresh_page)) 0%nat
      = <["aria-owns" := s]> (attributes_of fresh_page 0%nat).
Proof.
  intros [s E]. apply (f_equal (fun m => m !! "id")) in E.
  rewrite lookup_insert_ne in E by done. vm_compute in E. discriminate E.
Qed.

(** C4 (amended).  [set] is atomic on failure: when it throws, with either
    error, the state is the one before the call.  When it returns, the
    writes are one write of the key "aria-<name>" on the wrapped element
    and one write of the key "id" on each element the value mentions that
    carried no identifier (it has one afterwards); no other key of any
    store changes.  [set('sort', 'upwards')] throws [InvalidValue] and
    writes nothing. *)
Theorem set_atomic this attribute v st :
  match set this attribute v st with
  | (Throw _, st') => st' = st
  | (Ok _, st') =>
      exists s, forall h,
        let before := with_new_ids st st' (value_handles v) h in
        attributes_of st' h =
        (if decide (h = this) then <[aria attribute := s]> before
         else before) /\
        (receives_id st (value_handles v) h = true -> id_of st' h <> "")
  end /\
  set this "sort" (VString "upwards") st = (Throw InvalidValue, st).
Proof.
  split; [|reflexivity].
  destruct (set_reaches this attribute v st)
    as (items & k & refs & st1 & (F & Hsub & Hk & Hall) & R & _ & X & N & E).
  rewrite E. destruct (k refs) as [s|e] eqn:K.
  - exists s. intros h. cbv zeta.
    assert (forall h', h' ∈ element_handles items <-> h' ∈ value_handles v)
      as Hiff by (intros h'; split; [apply Hsub|by apply (Hall refs s)]).
    assert (with_new_ids st (written st1 this (aria attribute) s)
              (value_handles v) h
            = attributes_of st1 h) as ->.
    { pose proof (mapM_getId_stores items h st) as S. rewrite R in S.
      simpl in S. rewrite S. unfold with_new_ids, receives_id.
      rewrite id_written_aria.
      by rewrite (bool_decide_ext _ _ (Hiff h)). }
    split; [rewrite attributes_written; by destruct (decide (h = this)) as [->|]|].
    unfold receives_id. intros [Hin%bool_decide_eq_true _]%andb_true_iff.
    rewrite id_written_aria. rewrite Forall_forall in N. by apply N, Hiff.
  - destruct Hk as [->|Hk]; [|destruct (Hk refs); congruence].
    simpl in R. by injection R as _ <-.
Qed.

Lemma set_atomic_witness :
  receives_id fresh_page (value_handles (VArray [VElement 1%nat; VElement 2%nat]))
    2%nat = true /\
  id_of (snd (set 0%nat "owns" (VArray [VElement 1%nat; VElement 2%nat])
                fresh_page)) 2%nat <> "".
Proof.
  split; [reflexivity|].
  pose proof (set_atomic 0%nat "owns" (VArray [VElement 1%nat; VElement 2%nat])
                fresh_page) as [H _].
  destruct (set 0%nat "owns" _ fresh_page) as [[[]|e] st'] eqn:E;
    [|discriminate E].
  destruct H as [s H]. apply (proj2 (H 2%nat)). reflexivity.
Defined.
